(** * DSConvE: a shallow embedding of [model.py] and [train.py]

    A torch tensor is modelled as its shape together with its contiguous
    row-major storage.  Floating-point scalars are modelled as real numbers
    (rounding is not modelled), integer tensors hold [Z] or [nat]; the one
    float operation whose rounding the ranking depends on, [F.sigmoid], is
    known by a contract ([float_sigmoid]).  Operations that raise in the
    source, or whose result is no real number, return [None].  The model
    is embedded in its two modes: inference ([forward], [conv_e]), in which
    [valid] calls it, and training ([forward_train], [conv_e_train]), in
    which [train] calls it and where the random masks of the dropout
    layers are inputs. *)

From Stdlib Require Import Reals Lra Lia List ZArith Bool Arith PeanoNat.
From Stdlib Require Import Permutation Sorted.
From Stdlib Require String Ascii DecimalString DecimalNat DecimalFacts.
Import ListNotations.

Open Scope R_scope.

(** ** Tensors *)

Module Tensor.

Record tensor (A : Type) : Type := mkTensor { shape : list nat; data : list A }.
Arguments mkTensor {A} _ _.
Arguments shape {A} _.
Arguments data {A} _.

(** A small error monad: [None] is a raised exception (or a NaN). *)
Definition bind {A B : Type} (m : option A) (k : A -> option B) : option B :=
  match m with
  | Some a => k a
  | None => None
  end.

Notation "x <- m ;; k" := (bind m (fun x => k))
  (at level 61, m at next level, right associativity).

(** The number of elements of a shape. *)
Definition numel_of (s : list nat) : nat := fold_right Nat.mul 1%nat s.

Definition numel {A : Type} (t : tensor A) : nat := length (data t).

(** The storage of a well-formed tensor holds one element per index. *)
Definition wf {A : Type} (t : tensor A) : Prop :=
  length (data t) = numel_of (shape t).

(** Row-major offset of a multi-index (Horner's scheme over the shape). *)
Definition offset (s idx : list nat) : nat :=
  fold_left (fun acc p => (acc * fst p + snd p)%nat) (combine s idx) 0%nat.

Definition get {A : Type} (d : A) (t : tensor A) (idx : list nat) : A :=
  nth (offset (shape t) idx) (data t) d.

Definition shape_eqb (s1 s2 : list nat) : bool :=
  if list_eq_dec Nat.eq_dec s1 s2 then true else false.

(** A tensor filled from a function of the storage position. *)
Definition init_tensor {A : Type} (s : list nat) (f : nat -> A) : tensor A :=
  mkTensor s (map f (seq 0 (numel_of s))).

(** Elementwise unary operation. *)
Definition tmap {A B : Type} (f : A -> B) (t : tensor A) : tensor B :=
  mkTensor (shape t) (map f (data t)).

Definition zip_with {A B C : Type} (f : A -> B -> C) (a : list A) (b : list B)
  : list C :=
  map (fun p => f (fst p) (snd p)) (combine a b).

(** Elementwise binary operation on two tensors of one shape; differing
    shapes are an error (broadcasting is not modelled, the program never
    relies on it). *)
Definition tzip (f : R -> R -> R) (a b : tensor R) : option (tensor R) :=
  if shape_eqb (shape a) (shape b)
  then Some (mkTensor (shape a) (zip_with f (data a) (data b)))
  else None.

(** The unary and scalar tensor operations of torch used by the program. *)
Definition t_abs : tensor R -> tensor R := tmap Rabs.
Definition t_neg : tensor R -> tensor R := tmap Ropp.
Definition t_exp : tensor R -> tensor R := tmap exp.
Definition t_log : tensor R -> tensor R := tmap ln.
Definition t_clamp_min (m : R) : tensor R -> tensor R := tmap (fun x => Rmax x m).
Definition t_scalar_add (c : R) : tensor R -> tensor R := tmap (fun x => c + x).
Definition t_scalar_mul (c : R) : tensor R -> tensor R := tmap (fun x => c * x).
Definition t_add_scalar (c : R) : tensor R -> tensor R := tmap (fun x => x + c).
Definition t_scalar_div (c : R) : tensor R -> tensor R := tmap (fun x => c / x).

Definition t_mul : tensor R -> tensor R -> option (tensor R) := tzip Rmult.
Definition t_sub : tensor R -> tensor R -> option (tensor R) := tzip Rminus.
Definition t_add : tensor R -> tensor R -> option (tensor R) := tzip Rplus.

Definition vsum (v : list R) : R := fold_right Rplus 0 v.

(** The sum [f 0 + ... + f (n-1)]. *)
Definition sum_upto (n : nat) (f : nat -> R) : R := vsum (map f (seq 0 n)).

(** [Tensor.mean()]: the sum of all the elements over their number.  The
    mean of an empty tensor is NaN in torch, which is no real number: the
    model returns [None] there. *)
Definition t_mean (a : tensor R) : option R :=
  if (numel a =? 0)%nat then None
  else Some (vsum (data a) / INR (numel a)).

(** [x.view(-1, d1, ..., dk)]: the leading dimension is inferred. *)
Definition view_infer_first {A : Type} (t : tensor A) (rest : list nat)
  : option (tensor A) :=
  let p := numel_of rest in
  if (p =? 0)%nat then None
  else if (numel t mod p =? 0)%nat
       then Some (mkTensor ((numel t / p)%nat :: rest) (data t))
       else None.

(** [x.view(n, -1)]: the trailing dimension is inferred. *)
Definition view_infer_last {A : Type} (t : tensor A) (n : nat)
  : option (tensor A) :=
  if (n =? 0)%nat then None
  else if (numel t mod n =? 0)%nat
       then Some (mkTensor [n; (numel t / n)%nat] (data t))
       else None.

(** The [i]-th block of [k] consecutive elements of a storage. *)
Definition block {A : Type} (k i : nat) (l : list A) : list A :=
  firstn k (skipn (i * k) l).

(** [torch.cat([a, b], dim=1)] of two 3-dimensional tensors. *)
Definition cat_dim1 {A : Type} (a b : tensor A) : option (tensor A) :=
  match shape a, shape b with
  | [n; wa; h], [n'; wb; h'] =>
      if (n =? n')%nat && (h =? h')%nat
      then Some (mkTensor [n; (wa + wb)%nat; h]
                  (flat_map (fun i => block (wa * h) i (data a) ++
                                      block (wb * h) i (data b)) (seq 0 n)))
      else None
  | _, _ => None
  end.

(** [x.unsqueeze(1)]. *)
Definition unsqueeze1 {A : Type} (t : tensor A) : option (tensor A) :=
  match shape t with
  | n :: rest => Some (mkTensor (n :: 1%nat :: rest) (data t))
  | [] => None
  end.

(** [x.t()] of a 2-dimensional tensor. *)
Definition transpose (a : tensor R) : option (tensor R) :=
  match shape a with
  | [n; m] =>
      Some (mkTensor [m; n]
              (flat_map (fun j => map (fun i => get 0 a [i; j]) (seq 0 n))
                 (seq 0 m)))
  | _ => None
  end.

(** [a.mm(b)]. *)
Definition mm (a b : tensor R) : option (tensor R) :=
  match shape a, shape b with
  | [n; k], [k'; m] =>
      if (k =? k')%nat
      then Some (mkTensor [n; m]
                  (flat_map (fun i => map (fun j =>
                       sum_upto k (fun l => get 0 a [i; l] * get 0 b [l; j]))
                     (seq 0 m)) (seq 0 n)))
      else None
  | _, _ => None
  end.

(** Row [i] of a 2-dimensional tensor, as a vector. *)
Definition row (a : tensor R) (i : nat) : list R :=
  block (nth 1 (shape a) 0%nat) i (data a).

End Tensor.

(** ** [StableBCELoss] of train.py *)

Module StableBCELoss.
Import Tensor.

(** [forward(self, input, target)]:
<<
    neg_abs = - input.abs()
    loss = input.clamp(min=0) - input * target + (1 + neg_abs.exp()).log()
    return loss.mean()
>> *)
Definition forward (input target : tensor R) : option R :=
  let neg_abs := t_neg (t_abs input) in
  prod <- t_mul input target ;;
  diff <- t_sub (t_clamp_min 0 input) prod ;;
  loss <- t_add diff (t_log (t_scalar_add 1 (t_exp neg_abs))) ;;
  t_mean loss.

(** The per-element loss of the specification. *)
Definition elem_loss (x t : R) : R :=
  Rmax x 0 - x * t + ln (1 + exp (- Rabs x)).

(** The logistic function, [F.sigmoid] on one element. *)
Definition sigmoid (x : R) : R := 1 / (1 + exp (- x)).

(** The direct sigmoid cross-entropy. *)
Definition direct_bce (x t : R) : R :=
  - t * ln (sigmoid x) - (1 - t) * ln (1 - sigmoid x).

End StableBCELoss.

(** ** The layers of torch.nn used by model.py *)

Module Layers.
Import Tensor.

(** [nn.Embedding]: a weight matrix of shape [(num_embeddings,
    embedding_dim)]. *)
Record Embedding : Type := mkEmbedding {
  num_embeddings : nat;
  embedding_dim : nat;
  weight : tensor R
}.

Definition Embedding_new (num dim : nat) (init : nat -> R) : Embedding :=
  mkEmbedding num dim (init_tensor [num; dim] init).

(** The row of one index; torch raises on an index outside
    [0, num_embeddings) (negative indices do not wrap). *)
Definition lookup (e : Embedding) (i : Z) : option (list R) :=
  if ((0 <=? i)%Z && (i <? Z.of_nat (num_embeddings e))%Z)%bool
  then Some (block (embedding_dim e) (Z.to_nat i) (data (weight e)))
  else None.

Fixpoint lookup_all (e : Embedding) (idx : list Z) : option (list (list R)) :=
  match idx with
  | [] => Some []
  | i :: idx' =>
      r <- lookup e i ;;
      rs <- lookup_all e idx' ;;
      Some (r :: rs)
  end.

(** Calling the embedding on a 1-dimensional index tensor. *)
Definition Embedding_call (e : Embedding) (idx : list Z) : option (tensor R) :=
  rows <- lookup_all e idx ;;
  Some (mkTensor [length idx; embedding_dim e] (concat rows)).

(** [nn.Conv2d] without bias (both convolutions of the program are built
    with [bias=False]); the weight has shape
    [(out_channels, in_channels / groups, kernel_size, kernel_size)]. *)
Record Conv2d : Type := mkConv2d {
  in_channels : nat;
  out_channels : nat;
  kernel_size : nat;
  padding : nat;
  groups : nat;
  conv_weight : tensor R
}.

Definition Conv2d_new (cin cout k p g : nat) (init : nat -> R) : option Conv2d :=
  if (g =? 0)%nat then None
  else if negb ((cin mod g =? 0)%nat && (cout mod g =? 0)%nat) then None
  else Some (mkConv2d cin cout k p g (init_tensor [cout; (cin / g)%nat; k; k] init)).

(** Element [(b, c, i, j)] of the input padded with [p] zeros on each side
    of its two spatial axes of sizes [h] and [w]. *)
Definition get_padded (p h w : nat) (x : tensor R) (b c i j : nat) : R :=
  if ((p <=? i)%nat && (i <? p + h)%nat && (p <=? j)%nat && (j <? p + w)%nat)%bool
  then get 0 x [b; c; (i - p)%nat; (j - p)%nat]
  else 0.

(** One output element of the (grouped) cross-correlation. *)
Definition conv_at (cv : Conv2d) (h w : nat) (x : tensor R) (b o i j : nat) : R :=
  let k := kernel_size cv in
  let cg := (in_channels cv / groups cv)%nat in
  let og := (out_channels cv / groups cv)%nat in
  sum_upto cg (fun c =>
    sum_upto k (fun di =>
      sum_upto k (fun dj =>
        get 0 (conv_weight cv) [o; c; di; dj] *
        get_padded (padding cv) h w x b ((o / og) * cg + c)%nat (i + di)%nat (j + dj)%nat))).

(** The convolution of a batched input of shape [(n, c, h, w)]; torch raises
    when the channels of the input are not those of the layer, when the
    layer has no output channel, and when the (padded) input is smaller
    than the kernel. *)
Definition conv2d_batched (cv : Conv2d) (x : tensor R) (n c h w : nat)
  : option (tensor R) :=
  let k := kernel_size cv in
  let p := padding cv in
  if negb (c =? in_channels cv)%nat then None
  else if (out_channels cv =? 0)%nat then None
  else if (k =? 0)%nat then None
  else if ((h + 2 * p <? k)%nat || (w + 2 * p <? k)%nat)%bool then None
  else
    let ho := (h + 2 * p - k + 1)%nat in
    let wo := (w + 2 * p - k + 1)%nat in
    Some (mkTensor [n; out_channels cv; ho; wo]
            (flat_map (fun b =>
               flat_map (fun o =>
                 flat_map (fun i =>
                   map (fun j => conv_at cv h w x b o i j) (seq 0 wo))
                   (seq 0 ho))
                 (seq 0 (out_channels cv)))
               (seq 0 n))).

(** Calling the layer: a 4-dimensional input is a batch; a 3-dimensional
    input [(c, h, w)] is one unbatched image, convolved as a batch of one
    and returned without the batch axis; any other input raises. *)
Definition Conv2d_call (cv : Conv2d) (x : tensor R) : option (tensor R) :=
  match shape x with
  | [n; c; h; w] => conv2d_batched cv x n c h w
  | [c; h; w] =>
      y <- conv2d_batched cv (mkTensor [1; c; h; w]%nat (data x)) 1 c h w ;;
      Some (mkTensor (tl (shape y)) (data y))
  | _ => None
  end.

(** [nn.Linear]: weight of shape [(out_features, in_features)] and a bias. *)
Record Linear : Type := mkLinear {
  in_features : nat;
  out_features : nat;
  lin_weight : tensor R;
  lin_bias : tensor R
}.

Definition Linear_new (fin fout : nat) (winit binit : nat -> R) : Linear :=
  mkLinear fin fout (init_tensor [fout; fin] winit) (init_tensor [fout] binit).

Definition Linear_call (l : Linear) (x : tensor R) : option (tensor R) :=
  match shape x with
  | [n; f] =>
      if (f =? in_features l)%nat
      then Some (mkTensor [n; out_features l]
                  (flat_map (fun b => map (fun o =>
                       sum_upto f (fun i => get 0 x [b; i] * get 0 (lin_weight l) [o; i])
                       + get 0 (lin_bias l) [o])
                     (seq 0 (out_features l))) (seq 0 n)))
      else None
  | _ => None
  end.

(** [nn.ReLU]. *)
Definition ReLU (x : tensor R) : tensor R := tmap (fun v => Rmax v 0) x.

(** The constructor of [nn.Dropout] and [nn.Dropout2d] raises unless the
    probability is between 0 and 1. *)
Definition Dropout_new (p : R) : option R :=
  if Rle_dec 0 p then (if Rle_dec p 1 then Some p else None) else None.

(** [nn.Dropout] and [nn.Dropout2d] in inference mode are the identity. *)
Definition Dropout_eval (p : R) (x : tensor R) : tensor R := x.

(** Batch normalization in inference mode: the running statistics and the
    affine parameters of each feature. *)
Record BatchNorm : Type := mkBatchNorm {
  num_features : nat;
  bn_eps : R;
  running_mean : nat -> R;
  running_var : nat -> R;
  bn_gamma : nat -> R;
  bn_beta : nat -> R
}.

Definition bn_elem (bn : BatchNorm) (c : nat) (v : R) : R :=
  (v - running_mean bn c) / sqrt (running_var bn c + bn_eps bn) * bn_gamma bn c
  + bn_beta bn c.

(** Apply [f pos v] to the element [v] stored at position [pos]. *)
Definition map_indexed (f : nat -> R -> R) (l : list R) : list R :=
  zip_with f (seq 0 (length l)) l.

Definition BatchNorm2d_eval (bn : BatchNorm) (x : tensor R) : option (tensor R) :=
  match shape x with
  | [n; c; h; w] =>
      if (c =? num_features bn)%nat
      then Some (mkTensor (shape x)
                  (map_indexed (fun pos => bn_elem bn ((pos / (h * w)) mod c)%nat) (data x)))
      else None
  | _ => None
  end.

Definition BatchNorm1d_eval (bn : BatchNorm) (x : tensor R) : option (tensor R) :=
  match shape x with
  | [n; c] =>
      if (c =? num_features bn)%nat
      then Some (mkTensor (shape x)
                  (map_indexed (fun pos => bn_elem bn (pos mod c)%nat) (data x)))
      else None
  | _ => None
  end.

(** *** Training mode *)

(** One element under dropout: zeroed when the mask drops it (and always
    when [p = 1]), scaled by [1 / (1 - p)] otherwise. *)
Definition dropout_elem (p : R) (kept : bool) (v : R) : R :=
  if kept then (if Req_dec_T p 1 then 0 else v / (1 - p)) else 0.

(** [nn.Dropout] in training mode: each element is zeroed with probability
    [p] and the others are scaled by [1 / (1 - p)]. The random mask is an
    input: [keep pos] tells whether the element stored at position [pos] is
    kept. *)
Definition Dropout_train (p : R) (keep : nat -> bool) (x : tensor R) : tensor R :=
  mkTensor (shape x)
    (map_indexed (fun pos v => dropout_elem p (keep pos) v) (data x)).

(** [nn.Dropout2d] in training mode zeroes whole channels: the mask has
    one entry per image and channel. *)
Definition Dropout2d_train (p : R) (keep : nat -> bool) (x : tensor R) : tensor R :=
  let hw := numel_of (skipn 2 (shape x)) in
  mkTensor (shape x)
    (map_indexed (fun pos v => dropout_elem p (keep (pos / hw)%nat) v) (data x)).

(** The values of channel [ch] in a storage of [n] images of [c] channels
    of [hw] values. *)
Definition channel_values (n c hw ch : nat) (d : list R) : list R :=
  flat_map (fun b => map (fun q => nth ((b * c + ch) * hw + q)%nat d 0) (seq 0 hw))
    (seq 0 n).

Definition batch_mean (l : list R) : R := vsum l / INR (length l).

(** The biased variance, by which the batch is normalized. *)
Definition batch_var (l : list R) : R :=
  vsum (map (fun v => (v - batch_mean l) * (v - batch_mean l)) l) / INR (length l).

(** The default [momentum] of the running statistics. *)
Definition momentum : R := 0.1.

(** Batch normalization in training mode on [n] images of [c] channels of
    [hw] values: torch raises when a channel has one value only
    ([Expected more than 1 value per channel when training]); an empty
    input is returned as it is; otherwise each channel is normalized by
    the mean and the biased variance of its values in the batch, and the
    running statistics move towards the mean and the unbiased variance of
    the batch. *)
Definition BatchNorm_train (bn : BatchNorm) (n c hw : nat) (x : tensor R)
  : option (tensor R * BatchNorm) :=
  if (n * hw =? 1)%nat then None
  else if (n * c * hw =? 0)%nat
  then (if (num_features bn =? 0)%nat then None else Some (x, bn))
  else if negb (c =? num_features bn)%nat then None
  else
    let mu := fun ch => batch_mean (channel_values n c hw ch (data x)) in
    let var := fun ch => batch_var (channel_values n c hw ch (data x)) in
    let m := INR (n * hw) in
    Some (mkTensor (shape x)
            (map_indexed (fun pos v =>
               let ch := ((pos / hw) mod c)%nat in
               (v - mu ch) / sqrt (var ch + bn_eps bn) * bn_gamma bn ch + bn_beta bn ch)
               (data x)),
          mkBatchNorm (num_features bn) (bn_eps bn)
            (fun ch => (1 - momentum) * running_mean bn ch + momentum * mu ch)
            (fun ch => (1 - momentum) * running_var bn ch
                       + momentum * (var ch * m / (m - 1)))
            (bn_gamma bn) (bn_beta bn)).

Definition BatchNorm2d_train (bn : BatchNorm) (x : tensor R)
  : option (tensor R * BatchNorm) :=
  match shape x with
  | [n; c; h; w] => BatchNorm_train bn n c (h * w) x
  | _ => None
  end.

Definition BatchNorm1d_train (bn : BatchNorm) (x : tensor R)
  : option (tensor R * BatchNorm) :=
  match shape x with
  | [n; c] => BatchNorm_train bn n c 1 x
  | _ => None
  end.



End Layers.

(** ** model.py *)

Module Model.
Import Tensor Layers.

(** [class Flatten]:
<<
    n, _, _, _ = x.size()
    x = x.view(n, -1)
>> *)
Definition Flatten_forward (x : tensor R) : option (tensor R) :=
  match shape x with
  | [n; _; _; _] => view_infer_last x n
  | _ => None
  end.

(** [class DSConv2d]: a depthwise convolution ([groups=in_channels]) followed
    by a pointwise one ([kernel_size=1]). *)
Record DSConv2d : Type := mkDSConv2d {
  depthwise : Conv2d;
  pointwise : Conv2d
}.

Definition DSConv2d_new (cin cout k p : nat) (dw_init pw_init : nat -> R)
  : option DSConv2d :=
  dw <- Conv2d_new cin cin k p cin dw_init ;;
  pw <- Conv2d_new cin cout 1 0 1 pw_init ;;
  Some (mkDSConv2d dw pw).

Definition DSConv2d_forward (m : DSConv2d) (x : tensor R) : option (tensor R) :=
  out <- Conv2d_call (depthwise m) x ;;
  Conv2d_call (pointwise m) out.

(** The values of the learnable parameters and of the running statistics,
    by storage position. *)
Record Params : Type := mkParams {
  embed_e_init : nat -> R;
  embed_r_init : nat -> R;
  depthwise_init : nat -> R;
  pointwise_init : nat -> R;
  fc_weight_init : nat -> R;
  fc_bias_init : nat -> R;
  bn2d_eps : R;
  bn2d_mean : nat -> R;
  bn2d_var : nat -> R;
  bn2d_gamma : nat -> R;
  bn2d_beta : nat -> R;
  bn1d_eps : R;
  bn1d_mean : nat -> R;
  bn1d_var : nat -> R;
  bn1d_gamma : nat -> R;
  bn1d_beta : nat -> R
}.

(** [class DSConvE]; the fields of [conv_e] are the layers of the
    [nn.Sequential]. *)
Record DSConvE : Type := mkDSConvE {
  num_e : nat;
  num_r : nat;
  embedding_size_h : nat;
  embedding_size_w : nat;
  embed_e : Embedding;
  embed_r : Embedding;
  embed_dropout : R;
  conv : DSConv2d;
  bn2d : BatchNorm;
  feature_map_dropout : R;
  fc : Linear;
  bn1d : BatchNorm;
  proj_layer_dropout : R
}.

(** [flattened_size] of [__init__], on Python's unbounded integers. *)
Definition flattened_size (h w c k : nat) : Z :=
  ((Z.of_nat w * 2 - Z.of_nat k + 1) * (Z.of_nat h - Z.of_nat k + 1) * Z.of_nat c)%Z.

(** [DSConvE.__init__]; the dropout layers cannot be built with a
    probability outside [0, 1], nor [nn.Linear] with a negative number of
    input features. *)
Definition DSConvE_init (n_e n_r h w c k : nat) (p_embed p_fmap p_proj : R)
    (P : Params) : option DSConvE :=
  let embedding_size := (h * w)%nat in
  let fs := flattened_size h w c k in
  pe <- Dropout_new p_embed ;;
  ds <- DSConv2d_new 1 c k 0 (depthwise_init P) (pointwise_init P) ;;
  pf <- Dropout_new p_fmap ;;
  if (fs <? 0)%Z then None
  else
    pp <- Dropout_new p_proj ;;
    Some (mkDSConvE n_e n_r h w
            (Embedding_new n_e embedding_size (embed_e_init P))
            (Embedding_new n_r embedding_size (embed_r_init P))
            pe
            ds
            (mkBatchNorm c (bn2d_eps P) (bn2d_mean P) (bn2d_var P)
               (bn2d_gamma P) (bn2d_beta P))
            pf
            (Linear_new (Z.to_nat fs) embedding_size (fc_weight_init P) (fc_bias_init P))
            (mkBatchNorm embedding_size (bn1d_eps P) (bn1d_mean P) (bn1d_var P)
               (bn1d_gamma P) (bn1d_beta P))
            pp).

(** [self.conv_e], with the dropout and batch-normalization layers in
    inference mode (the mode in which [valid] runs the model). *)
Definition conv_e (m : DSConvE) (x : tensor R) : option (tensor R) :=
  let x0 := Dropout_eval (embed_dropout m) x in
  x1 <- DSConv2d_forward (conv m) x0 ;;
  let x2 := ReLU x1 in
  x3 <- BatchNorm2d_eval (bn2d m) x2 ;;
  let x4 := Dropout_eval (feature_map_dropout m) x3 in
  x5 <- Flatten_forward x4 ;;
  x6 <- Linear_call (fc m) x5 ;;
  let x7 := ReLU x6 in
  x8 <- BatchNorm1d_eval (bn1d m) x7 ;;
  Some (Dropout_eval (proj_layer_dropout m) x8).

(** The first lines of [DSConvE.forward], up to [conv_input]:
<<
    embed_s = self.embed_e(s)
    embed_r = self.embed_r(r)
    embed_s = embed_s.view(-1, self.embedding_size_w, self.embedding_size_h)
    embed_r = embed_r.view(-1, self.embedding_size_w, self.embedding_size_h)
    conv_input = torch.cat([embed_s, embed_r], dim=1).unsqueeze(1)
>> *)
Definition conv_input (m : DSConvE) (s r : list Z) : option (tensor R) :=
  es <- Embedding_call (embed_e m) s ;;
  er <- Embedding_call (embed_r m) r ;;
  es' <- view_infer_first es [embedding_size_w m; embedding_size_h m] ;;
  er' <- view_infer_first er [embedding_size_w m; embedding_size_h m] ;;
  c <- cat_dim1 es' er' ;;
  unsqueeze1 c.

(** [DSConvE.forward] of a model in inference mode. *)
Definition forward (m : DSConvE) (s r : list Z) : option (tensor R) :=
  ci <- conv_input m s r ;;
  out <- conv_e m ci ;;
  wt <- transpose (weight (embed_e m)) ;;
  mm out wt.

(** *** Training mode *)

(** The random masks of the three dropout layers in one call of
    [forward]. *)
Record Masks : Type := mkMasks {
  keep_embed : nat -> bool;
  keep_fmap : nat -> bool;
  keep_proj : nat -> bool
}.

(** [self.conv_e] in training mode, as [train] calls it: the result is the
    projected batch together with the two batch normalizations, whose
    running statistics the call updates. *)
Definition conv_e_train (m : DSConvE) (mk : Masks) (x : tensor R)
  : option (tensor R * BatchNorm * BatchNorm) :=
  let x0 := Dropout_train (embed_dropout m) (keep_embed mk) x in
  x1 <- DSConv2d_forward (conv m) x0 ;;
  let x2 := ReLU x1 in
  r3 <- BatchNorm2d_train (bn2d m) x2 ;;
  let x4 := Dropout2d_train (feature_map_dropout m) (keep_fmap mk) (fst r3) in
  x5 <- Flatten_forward x4 ;;
  x6 <- Linear_call (fc m) x5 ;;
  let x7 := ReLU x6 in
  r8 <- BatchNorm1d_train (bn1d m) x7 ;;
  Some (Dropout_train (proj_layer_dropout m) (keep_proj mk) (fst r8), snd r3, snd r8).

(** The model after a call that updated its batch normalizations. *)
Definition with_batch_norms (m : DSConvE) (bn2 bn1 : BatchNorm) : DSConvE :=
  mkDSConvE (num_e m) (num_r m) (embedding_size_h m) (embedding_size_w m)
    (embed_e m) (embed_r m) (embed_dropout m) (conv m) bn2
    (feature_map_dropout m) (fc m) bn1 (proj_layer_dropout m).

(** [DSConvE.forward] of a model in training mode: the scores and the
    model as the call leaves it. *)
Definition forward_train (m : DSConvE) (mk : Masks) (s r : list Z)
  : option (tensor R * DSConvE) :=
  ci <- conv_input m s r ;;
  res <- conv_e_train m mk ci ;;
  wt <- transpose (weight (embed_e m)) ;;
  scores <- mm (fst (fst res)) wt ;;
  Some (scores, with_batch_norms m (snd (fst res)) (snd res)).

(** [DSConvE.test]: [F.sigmoid(self(s, r))], where [sg] is [F.sigmoid] on
    one float32 element (see [float_sigmoid]). *)
Definition test (sg : R -> R) (m : DSConvE) (s r : list Z) : option (tensor R) :=
  scores <- forward m s r ;;
  Some (tmap sg scores).

End Model.

(** ** train.py: the training loop *)

Module Train.
Import Tensor.

(** [torch.LongTensor(b, n)]: uninitialized storage, whose content is
    whatever [garbage] holds. *)
Definition LongTensor_new (b n : nat) (garbage : nat -> Z) : tensor Z :=
  init_tensor [b; n] garbage.

(** [y.zero_()]. *)
Definition zero_ (y : tensor Z) : tensor Z := tmap (fun _ => 0%Z) y.

(** Overwrite position [k] of a storage. *)
Fixpoint set_nth {A : Type} (k : nat) (v : A) (l : list A) : list A :=
  match l, k with
  | [], _ => []
  | _ :: l', O => v :: l'
  | x :: l', S k' => x :: set_nth k' v l'
  end.

(** The writes of [scatter_(1, index, value)], in storage order of the index
    tensor of row length [m]: the entry at position [pos] lies in row
    [pos / m] and names a column of that row of [y].  An index outside
    [0, n) raises. *)
Fixpoint scatter_writes (n m pos : nat) (idxs : list Z) (value : Z) (y : list Z)
  : option (list Z) :=
  match idxs with
  | [] => Some y
  | ix :: rest =>
      if ((0 <=? ix)%Z && (ix <? Z.of_nat n)%Z)%bool
      then scatter_writes n m (S pos) rest value
             (set_nth ((pos / m) * n + Z.to_nat ix) value y)
      else None
  end.

(** [y.scatter_(1, index, value)] for 2-dimensional [y] and [index]; the
    index tensor may not have more rows than [y]. *)
Definition scatter_1 (y index : tensor Z) (value : Z) : option (tensor Z) :=
  match shape y, shape index with
  | [b; n], [b'; m] =>
      if (b' <=? b)%nat
      then d <- scatter_writes n m 0 (data index) value (data y) ;;
           Some (mkTensor (shape y) d)
      else None
  | _, _ => None
  end.

(** [y.float()]. *)
Definition float (y : tensor Z) : tensor R := tmap IZR y.

(** The target construction of one batch of [train]: [y_multihot] is the
    buffer kept across the batches, [s_size] is [s.size()[0]] and [os] the
    index tensor of the true objects.  The result is the buffer after the
    batch and [y_smooth].
<<
    if s.size()[0] != args.batch_size:
        y_multihot = torch.LongTensor(s.size()[0], len(data.e_to_index))
    y_multihot.zero_()
    y_multihot = y_multihot.scatter_(1, os, 1)
    y_smooth = (1 - args.label_smooth) * y_multihot.float()
               + args.label_smooth / len(data.e_to_index)
>> *)
Definition build_targets (batch_size num_entities : nat) (label_smooth : R)
    (garbage : nat -> Z) (y_multihot : tensor Z) (s_size : nat) (os : tensor Z)
  : option (tensor Z * tensor R) :=
  let y0 := if negb (s_size =? batch_size)%nat
            then LongTensor_new s_size num_entities garbage
            else y_multihot in
  let y1 := zero_ y0 in
  y2 <- scatter_1 y1 os 1%Z ;;
  if (num_entities =? 0)%nat then None
  else Some (y2, t_add_scalar (label_smooth / INR num_entities)
                   (t_scalar_mul (1 - label_smooth) (float y2))).

(** The update of [moving_loss] after one batch:
<<
    if moving_loss == 0:
        moving_loss = loss.data
    else:
        moving_loss = moving_loss * 0.9 + loss.data * 0.1
>> *)
Definition update_moving_loss (moving_loss loss : R) : R :=
  if Req_dec_T moving_loss 0 then loss
  else moving_loss * 0.9 + loss * 0.1.

(** [moving_loss] at the end of an epoch whose batches had the given
    losses; it starts at 0. *)
Definition moving_loss_of (losses : list R) : R :=
  fold_left update_moving_loss losses 0.

(** The moving average as the specification words it: seeded with the
    first loss, then [avg = 0.9 * avg + 0.1 * loss]. *)
Definition spec_moving_average (losses : list R) : R :=
  match losses with
  | [] => 0
  | l0 :: rest => fold_left (fun avg l => 0.9 * avg + 0.1 * l) rest l0
  end.

End Train.

(** ** train.py: the evaluation loop *)

Module Valid.
Import Tensor.

Definition R_ltb (x y : R) : bool := if Rlt_dec x y then true else false.

Definition score (scores : list R) (i : nat) : R := nth i scores 0.

(** The contract of [scores.topk(len(scores))]: the indices of all the
    entries, by descending score.  The order among equal scores is not
    specified by torch. *)
Definition is_topk (scores : list R) (idx : list nat) : Prop :=
  Permutation idx (seq 0 (length scores)) /\
  StronglySorted (fun i j => score scores i >= score scores j) idx.

(** A reference implementation: insertion sort, a lower index first among
    equal scores. *)
Fixpoint insert_desc (scores : list R) (i : nat) (l : list nat) : list nat :=
  match l with
  | [] => [i]
  | j :: l' =>
      if R_ltb (score scores i) (score scores j)
      then j :: insert_desc scores i l'
      else i :: l
  end.

Definition topk_stable (scores : list R) : list nat :=
  fold_right (insert_desc scores) [] (seq 0 (length scores)).

(** [top_indices == o], as a tensor of zeros and ones. *)
Definition eq_mask (top_indices : list nat) (o : nat) : list nat :=
  map (fun i => if (i =? o)%nat then 1%nat else 0%nat) top_indices.

(** [t.max(dim=0)] of a 1-dimensional tensor: the maximum and the first
    position that holds it; raises on an empty tensor. *)
Fixpoint max_dim0 (l : list nat) : option (nat * nat) :=
  match l with
  | [] => None
  | x :: l' =>
      match max_dim0 l' with
      | None => Some (x, 0%nat)
      | Some (v, p) => if (v <=? x)%nat then Some (x, 0%nat) else Some (v, S p)
      end
  end.

(** The rank appended for the true object [o]:
<<
    _, rank = (top_indices == o).max(dim=0)
    ranks.append(rank.data + 1)
>> *)
Definition rank_of (top_indices : list nat) (o : nat) : option nat :=
  vp <- max_dim0 (eq_mask top_indices o) ;;
  Some (snd vp + 1)%nat.

(** The ranks of the true objects [os_i] of one batch element. *)
Fixpoint ranks_of_objects (top_indices : list nat) (os_i : list nat)
  : option (list nat) :=
  match os_i with
  | [] => Some []
  | o :: rest =>
      rk <- rank_of top_indices o ;;
      rks <- ranks_of_objects top_indices rest ;;
      Some (rk :: rks)
  end.

(** The ranks of one batch: rows [0 .. min(batch_size, s.size()[0]) - 1]
    of [output] against the true objects [os].
<<
    for i in range(min(batch_size, s.size()[0])):
        _, top_indices = output[i].topk(output.size()[1])
        for o in os[i]:
            ...
>> *)
Fixpoint ranks_of_rows (topk : list R -> list nat) (output : tensor R)
    (os : list (list nat)) (rows : list nat) : option (list nat) :=
  match rows with
  | [] => Some []
  | i :: rows' =>
      match nth_error os i with
      | None => None
      | Some os_i =>
          rks <- ranks_of_objects (topk (row output i)) os_i ;;
          rest <- ranks_of_rows topk output os rows' ;;
          Some (rks ++ rest)
      end
  end.

Definition ranks_of_batch (topk : list R -> list nat) (batch_size s_size : nat)
    (output : tensor R) (os : list (list nat)) : option (list nat) :=
  ranks_of_rows topk output os (seq 0 (Nat.min batch_size s_size)).

(** [torch.FloatTensor(ranks)]. *)
Definition FloatTensor (ranks : list nat) : tensor R :=
  mkTensor [length ranks] (map INR ranks).

(** [mr = ranks_t.mean()] and [mrr = (1 / ranks_t).mean()]. *)
Definition mr (ranks : list nat) : option R := t_mean (FloatTensor ranks).

Definition mrr (ranks : list nat) : option R :=
  t_mean (t_scalar_div 1 (FloatTensor ranks)).

(** The number of entries of [scores] strictly above that of [o]. *)
Definition count_gt (scores : list R) (o : nat) : nat :=
  length (filter (fun x => R_ltb (score scores o) x) scores).

(** The number of entries that [top_indices] lists before [o] with the
    score of [o]. *)
Fixpoint ties_before (scores : list R) (top_indices : list nat) (o : nat) : nat :=
  match top_indices with
  | [] => 0%nat
  | i :: rest =>
      if (i =? o)%nat then 0%nat
      else ((if Req_dec_T (score scores i) (score scores o) then 1 else 0)
            + ties_before scores rest o)%nat
  end.

End Valid.

(** ** Auxiliary notions used in the statements *)

Module Notions.
Import Tensor Layers Model Train.

(** An index lies within [0, n). *)
Definition in_range (n : nat) (i : Z) : Prop := (0 <= i < Z.of_nat n)%Z.

(** A 4-dimensional storage generated element by element. *)
Definition gen4 (n c h w : nat) (f : nat -> nat -> nat -> nat -> R) : list R :=
  flat_map (fun b =>
    flat_map (fun o =>
      flat_map (fun i => map (fun j => f b o i j) (seq 0 w)) (seq 0 h))
      (seq 0 c))
    (seq 0 n).

(** The true objects of batch element [i]: row [i] of the index tensor. *)
Definition objects (os : tensor Z) (i : nat) : list Z :=
  block (nth 1 (shape os) 0%nat) i (data os).

(** Position [p] of the storage is written by one of the indices. *)
Fixpoint written (n m pos : nat) (idxs : list Z) (p : nat) : bool :=
  match idxs with
  | [] => false
  | ix :: rest =>
      (p =? (pos / m) * n + Z.to_nat ix)%nat || written n m (S pos) rest p
  end.

(** The parameters of a small model on which the statements are
    exercised. *)
Definition small_params : Params :=
  mkParams (fun i => INR i) (fun _ => 1) (fun _ => 1) (fun _ => 1)
    (fun _ => 1) (fun _ => 0)
    1 (fun _ => 0) (fun _ => 1) (fun _ => 1) (fun _ => 0)
    1 (fun _ => 0) (fun _ => 1) (fun _ => 1) (fun _ => 0).

End Notions.
Import Notions.

(** ** Further notions *)

Module MoreNotions.
Import Tensor Layers Model Train Valid Notions.

(** [DSConv2d(in_channels, out_channels)] with the default arguments of its
    constructor, [kernel_size = 3] and [padding = 1]. *)
Definition DSConv2d_default (cin cout : nat) (dw_init pw_init : nat -> R)
  : option DSConv2d :=
  DSConv2d_new cin cout 3 1 dw_init pw_init.

(** The dense convolution whose kernel for output channel [o] and input
    channel [c] is the depthwise kernel of [c] scaled by the pointwise
    weight of [(o, c)]. *)
Definition dense_of (m : DSConv2d) : Conv2d :=
  let dw := depthwise m in
  let pw := pointwise m in
  mkConv2d (in_channels dw) (out_channels pw) (kernel_size dw) (padding dw) 1
    (mkTensor [out_channels pw; in_channels dw; kernel_size dw; kernel_size dw]
       (gen4 (out_channels pw) (in_channels dw) (kernel_size dw) (kernel_size dw)
          (fun o c di dj =>
             get 0 (conv_weight pw) [o; c; 0; 0]%nat *
             get 0 (conv_weight dw) [c; 0; di; dj]%nat))).



End MoreNotions.
Import MoreNotions.

(** ** train.py: the names of the files of a run *)

Module Naming.
Import Ascii String.
Local Open Scope string_scope.

(** [str(n)] of a non-negative integer: its decimal digits. *)
Definition str (n : nat) : string :=
  DecimalString.NilZero.string_of_uint (Nat.to_uint n).

Fixpoint zeros (k : nat) : string :=
  match k with
  | O => ""
  | S k' => String "0" (zeros k')
  end.

(** [s.zfill(width)]: zeros are added on the left up to [width]
    characters, after a leading sign if there is one. *)
Definition zfill (width : nat) (s : string) : string :=
  let fill := (width - length s)%nat in
  match s with
  | String c rest =>
      if (Ascii.eqb c "+" || Ascii.eqb c "-")%bool
      then String c (zeros fill ++ rest)
      else zeros fill ++ s
  | EmptyString => zeros fill
  end.

(** [checkpoint_path = 'checkpoint-{}'.format(args.name)]. *)
Definition checkpoint_path (name : string) : string := "checkpoint-" ++ name.

(** The file written after the epoch of the given (0-based) number:
<<
    '{}/checkpoint_{}.model'.format(checkpoint_path, str(epoch + 1).zfill(2))
>> *)
Definition checkpoint_file (name : string) (epoch : nat) : string :=
  checkpoint_path name ++ "/checkpoint_" ++ zfill 2 (str (epoch + 1)) ++ ".model".

(** [setup_logger]:
<<
    log_file = args.log_file
    ...
    if args.log_file is None:
        if args.name == '':
            log_file = 'train.log'
        else:
            log_file = args.name + '.log'
>> *)
Definition log_file_of (log_file : option string) (name : string) : string :=
  match log_file with
  | Some f => f
  | None => if (name =? "")%string then "train.log" else name ++ ".log"
  end.

End Naming.

(** ** Facts about storages and sums *)

Section StorageFacts.
Import Tensor.

Lemma zip_with_length {A B C : Type} (f : A -> B -> C) (a : list A) (b : list B) :
  length a = length b -> length (zip_with f a b) = length a.
Proof.
  intros H. unfold zip_with. rewrite length_map, length_combine. lia.
Qed.

Lemma zip_with_nth {A B C : Type} (f : A -> B -> C) (a : list A) (b : list B)
    (da : A) (db : B) (dc : C) (k : nat) :
  length a = length b -> (k < length a)%nat ->
  nth k (zip_with f a b) dc = f (nth k a da) (nth k b db).
Proof.
  intros Hl Hk. unfold zip_with.
  rewrite (nth_indep _ dc (f da db)) by (rewrite length_map, length_combine; lia).
  change (f da db) with ((fun p => f (fst p) (snd p)) (da, db)).
  rewrite map_nth, combine_nth by assumption. reflexivity.
Qed.

Lemma map_nth_in {A B : Type} (f : A -> B) (l : list A) (da : A) (db : B) (k : nat) :
  (k < length l)%nat -> nth k (map f l) db = f (nth k l da).
Proof.
  intros Hk. rewrite (nth_indep _ db (f da)) by (rewrite length_map; lia).
  apply map_nth.
Qed.

Lemma vsum_app (u v : list R) : vsum (u ++ v) = vsum u + vsum v.
Proof. induction u as [|x u IH]; simpl; [lra | rewrite IH; lra]. Qed.

Lemma sum_upto_ext (n : nat) (f g : nat -> R) :
  (forall i, (i < n)%nat -> f i = g i) -> sum_upto n f = sum_upto n g.
Proof.
  intros H. unfold sum_upto. f_equal. apply map_ext_in.
  intros i Hi. apply in_seq in Hi. apply H. lia.
Qed.

Lemma sum_upto_S (n : nat) (f : nat -> R) :
  sum_upto (S n) f = f 0%nat + sum_upto n (fun i => f (S i)).
Proof.
  unfold sum_upto. simpl. f_equal. now rewrite <- seq_shift, map_map.
Qed.

Lemma sum_upto_1 (f : nat -> R) : sum_upto 1 f = f 0%nat.
Proof. unfold sum_upto. simpl. lra. Qed.

Lemma vsum_nth (v : list R) : vsum v = sum_upto (length v) (fun j => nth j v 0).
Proof.
  induction v as [|x v IH]; [reflexivity|].
  simpl length. rewrite sum_upto_S. simpl. now rewrite IH.
Qed.

(** The sum of a storage of [b] rows of [n] elements, row by row. *)
Lemma vsum_rows (b n : nat) (v : list R) :
  length v = (b * n)%nat ->
  vsum v = sum_upto b (fun i => sum_upto n (fun j => nth (i * n + j) v 0)).
Proof.
  revert v; induction b as [|b IH]; intros v Hl.
  - destruct v; [reflexivity | discriminate].
  - rewrite <- (firstn_skipn n v) at 1. rewrite vsum_app, sum_upto_S.
    assert (Hf : length (firstn n v) = n) by (rewrite length_firstn; lia).
    f_equal.
    + rewrite vsum_nth, Hf. apply sum_upto_ext; intros j Hj. simpl.
      rewrite <- (firstn_skipn n v) at 2. now rewrite app_nth1 by lia.
    + rewrite IH by (rewrite length_skipn; lia).
      apply sum_upto_ext; intros i Hi. apply sum_upto_ext; intros j Hj.
      rewrite <- (firstn_skipn n v) at 2.
      rewrite app_nth2 by lia. f_equal. rewrite Hf. simpl. lia.
Qed.

Lemma offset2 (b n i j : nat) : offset [b; n] [i; j] = (i * n + j)%nat.
Proof. reflexivity. Qed.

Lemma shape_eqb_refl (s : list nat) : shape_eqb s s = true.
Proof. unfold shape_eqb. destruct (list_eq_dec Nat.eq_dec s s); congruence. Qed.

Lemma tzip_same_shape (f : R -> R -> R) (a c : tensor R) :
  shape a = shape c ->
  tzip f a c = Some (mkTensor (shape a) (zip_with f (data a) (data c))).
Proof. intros H. unfold tzip. now rewrite H, shape_eqb_refl. Qed.

End StorageFacts.

(** ** The training criterion *)

Section LossFacts.
Import Tensor StableBCELoss.

Lemma loss_storage (dx dt : list R) :
  length dx = length dt ->
  zip_with Rplus
    (zip_with Rminus (map (fun v => Rmax v 0) dx) (zip_with Rmult dx dt))
    (map ln (map (fun v => 1 + v) (map exp (map Ropp (map Rabs dx)))))
  = zip_with elem_loss dx dt.
Proof.
  revert dt; induction dx as [|x dx IH]; intros [|t dt] Hl;
    simpl in Hl; try discriminate; [reflexivity|].
  unfold zip_with in *. simpl. f_equal. apply IH. lia.
Qed.

(** On one shape, the criterion is the mean of the elementwise losses of
    the two storages. *)
Lemma forward_storage (x t : tensor R) :
  shape x = shape t -> wf x -> wf t -> (0 < numel x)%nat ->
  forward x t =
  Some (vsum (zip_with elem_loss (data x) (data t)) / INR (numel x)).
Proof.
  intros Hs Hx Ht Hpos. unfold forward, t_mul, t_sub, t_add.
  rewrite (tzip_same_shape _ x t Hs). simpl.
  rewrite tzip_same_shape by reflexivity. simpl.
  rewrite tzip_same_shape by reflexivity. simpl.
  assert (Hlen : length (data x) = length (data t))
    by (unfold wf in *; rewrite Hx, Ht, Hs; reflexivity).
  rewrite (loss_storage _ _ Hlen).
  unfold t_mean, numel in *. simpl data. rewrite zip_with_length by lia.
  destruct (Nat.eqb_spec (length (data x)) 0); [lia | reflexivity].
Qed.

(** C1: for logits [x] and targets [t] of one shape [(b, n)] with at least
    one element, the criterion returns the mean, over all the [b * n]
    elements, of [max(x,0) - x*t + log(1 + exp(-|x|))]. *)
Theorem stable_bce_forward_mean (x t : tensor R) (b n : nat) :
  shape x = [b; n] -> shape t = [b; n] -> wf x -> wf t -> (0 < b * n)%nat ->
  forward x t =
  Some (sum_upto b (fun i => sum_upto n (fun j =>
          elem_loss (get 0 x [i; j]) (get 0 t [i; j]))) / INR (b * n)).
Proof.
  intros Hsx Hst Hx Ht Hpos.
  assert (Hlx : length (data x) = (b * n)%nat)
    by (unfold wf in Hx; rewrite Hx, Hsx; simpl; lia).
  assert (Hlt : length (data t) = (b * n)%nat)
    by (unfold wf in Ht; rewrite Ht, Hst; simpl; lia).
  rewrite forward_storage; try assumption; [| congruence | unfold numel; lia].
  unfold numel. rewrite Hlx. do 2 f_equal.
  rewrite (vsum_rows b n) by (rewrite zip_with_length; lia).
  apply sum_upto_ext; intros i Hi. apply sum_upto_ext; intros j Hj.
  unfold get. rewrite Hsx, Hst, offset2.
  apply zip_with_nth; [lia|]. rewrite Hlx. nia.
Qed.

End LossFacts.

Lemma stable_bce_forward_mean_witness :
  let x := Tensor.mkTensor [1; 2]%nat [1; -2] in
  let t := Tensor.mkTensor [1; 2]%nat [1; 0] in
  StableBCELoss.forward x t =
  Some (Tensor.sum_upto 1 (fun i => Tensor.sum_upto 2 (fun j =>
          StableBCELoss.elem_loss (Tensor.get 0 x [i; j]) (Tensor.get 0 t [i; j])))
        / INR (1 * 2)).
Proof.
  apply (stable_bce_forward_mean
           (Tensor.mkTensor [1; 2]%nat [1; -2]) (Tensor.mkTensor [1; 2]%nat [1; 0]) 1 2);
    try reflexivity.
  simpl. lia.
Defined.

Section StableFormula.
Import Tensor StableBCELoss.

Lemma one_plus_exp_pos (y : R) : 0 < 1 + exp y.
Proof. pose proof (exp_pos y). lra. Qed.

Lemma sigmoid_pos (x : R) : 0 < sigmoid x.
Proof.
  unfold sigmoid. apply Rdiv_lt_0_compat; [lra | apply one_plus_exp_pos].
Qed.

Lemma ln_sigmoid (x : R) : ln (sigmoid x) = - ln (1 + exp (- x)).
Proof.
  unfold sigmoid. rewrite <- ln_Rinv by apply one_plus_exp_pos.
  f_equal. field. pose proof (one_plus_exp_pos (- x)). lra.
Qed.

Lemma ln_one_minus_sigmoid (x : R) :
  ln (1 - sigmoid x) = - x - ln (1 + exp (- x)).
Proof.
  pose proof (one_plus_exp_pos (- x)) as Hp. pose proof (exp_pos (- x)) as He.
  replace (1 - sigmoid x) with (exp (- x) / (1 + exp (- x)))
    by (unfold sigmoid; field; lra).
  unfold Rdiv. rewrite ln_mult, ln_Rinv, ln_exp; try assumption.
  - lra.
  - now apply Rinv_0_lt_compat.
Qed.

Lemma softplus_fold (x : R) :
  Rmax x 0 + ln (1 + exp (- Rabs x)) = x + ln (1 + exp (- x)).
Proof.
  destruct (Rle_lt_dec 0 x) as [Hx | Hx].
  - rewrite Rmax_left, Rabs_right by lra. reflexivity.
  - rewrite Rmax_right, Rabs_left by lra.
    replace (- - x) with x by lra.
    replace (1 + exp x) with (exp x * (1 + exp (- x))).
    + rewrite ln_mult, ln_exp; [lra | apply exp_pos | apply one_plus_exp_pos].
    + rewrite Rmult_plus_distr_l, <- exp_plus.
      replace (x + - x) with 0 by lra. rewrite exp_0. lra.
Qed.

Lemma elem_loss_direct (x t : R) : elem_loss x t = direct_bce x t.
Proof.
  unfold elem_loss, direct_bce.
  rewrite ln_sigmoid, ln_one_minus_sigmoid.
  pose proof (softplus_fold x). lra.
Qed.

Lemma exp_neg_abs_bounds (x : R) : 0 < exp (- Rabs x) <= 1.
Proof.
  split; [apply exp_pos|].
  rewrite <- exp_0. pose proof (Rabs_pos x) as Ha.
  destruct (Req_dec (Rabs x) 0) as [E | E].
  - rewrite E, Ropp_0. lra.
  - left. apply exp_increasing. lra.
Qed.

Lemma softplus_tail_bounds (x : R) : 0 < ln (1 + exp (- Rabs x)) <= ln 2.
Proof.
  destruct (exp_neg_abs_bounds x) as [Hl Hu]. split.
  - rewrite <- ln_1. apply ln_increasing; lra.
  - destruct Hu as [Hu | Hu].
    + left. apply ln_increasing; lra.
    + right. f_equal. lra.
Qed.

Lemma elem_loss_bounds (x t : R) :
  0 <= t <= 1 -> 0 < elem_loss x t <= Rabs x + ln 2.
Proof.
  intros Ht. pose proof (softplus_tail_bounds x) as [Hl Hu]. unfold elem_loss.
  destruct (Rle_lt_dec 0 x) as [Hx | Hx].
  - rewrite Rmax_left by lra. rewrite Rabs_right in * by lra. nra.
  - rewrite Rmax_right by lra. rewrite Rabs_left in * by lra. nra.
Qed.

(** C5: the stable per-element loss is the direct sigmoid cross-entropy, for
    every real logit and every target in [0,1]; the exponential is only
    taken of a non-positive argument (its value stays in (0,1]), the
    logarithm of a number in (1,2], and the loss lies between 0 and
    [|x| + ln 2]. *)
Theorem stable_loss_equals_direct_and_bounded (x t : R) :
  0 <= t <= 1 ->
  elem_loss x t = direct_bce x t /\
  0 < exp (- Rabs x) <= 1 /\
  0 < ln (1 + exp (- Rabs x)) <= ln 2 /\
  0 < elem_loss x t <= Rabs x + ln 2.
Proof.
  intros Ht. split; [apply elem_loss_direct|].
  split; [apply exp_neg_abs_bounds|].
  split; [apply softplus_tail_bounds|].
  now apply elem_loss_bounds.
Qed.

Lemma stable_loss_equals_direct_and_bounded_witness :
  0 <= 1 / 2 <= 1 /\
  elem_loss 1000 (1 / 2) = direct_bce 1000 (1 / 2) /\
  0 < exp (- Rabs 1000) <= 1 /\
  0 < ln (1 + exp (- Rabs 1000)) <= ln 2 /\
  0 < elem_loss 1000 (1 / 2) <= Rabs 1000 + ln 2.
Proof.
  split; [lra|].
  apply (stable_loss_equals_direct_and_bounded 1000 (1 / 2)). lra.
Defined.

End StableFormula.

(** ** The moving average of the loss *)

Section MovingAverage.
Import Tensor Train.

Lemma update_moving_loss_nonzero (avg l : R) :
  avg <> 0 -> update_moving_loss avg l = 0.9 * avg + 0.1 * l.
Proof.
  intros H. unfold update_moving_loss.
  destruct (Req_dec_T avg 0); [contradiction | lra].
Qed.

Lemma update_moving_loss_zero (l : R) : update_moving_loss 0 l = l.
Proof.
  unfold update_moving_loss. destruct (Req_dec_T 0 0); [reflexivity | lra].
Qed.

Lemma fold_moving_positive (rest : list R) (avg : R) :
  0 < avg -> Forall (fun l => 0 < l) rest ->
  fold_left update_moving_loss rest avg
  = fold_left (fun a l => 0.9 * a + 0.1 * l) rest avg.
Proof.
  revert avg; induction rest as [|l rest IH]; intros avg Havg Hpos; [reflexivity|].
  inversion Hpos; subst. simpl.
  rewrite update_moving_loss_nonzero by lra. apply IH; [lra | assumption].
Qed.

(** On strictly positive losses the loop computes the moving average of
    the specification. *)
Lemma moving_loss_positive_losses (losses : list R) :
  Forall (fun l => 0 < l) losses ->
  moving_loss_of losses = spec_moving_average losses.
Proof.
  intros Hpos. destruct losses as [|l0 rest]; [reflexivity|].
  inversion Hpos; subst. unfold moving_loss_of. simpl.
  rewrite update_moving_loss_zero. now apply fold_moving_positive.
Qed.

Example moving_loss_two_batches : moving_loss_of [2; 4] = 2.2.
Proof.
  unfold moving_loss_of. simpl. rewrite update_moving_loss_zero.
  rewrite update_moving_loss_nonzero by lra. lra.
Qed.

(** C4: the loop takes a moving average equal to 0 for "no loss seen yet":
    after a first loss of 0 the second loss 5 seeds the average again, and
    it is 5 where the moving average of the specification is 0.5. *)
Theorem moving_loss_reseeded_after_zero :
  moving_loss_of [0; 5] = 5 /\ spec_moving_average [0; 5] = 0.5.
Proof.
  unfold moving_loss_of, spec_moving_average. simpl.
  rewrite !update_moving_loss_zero. split; lra.
Qed.

End MovingAverage.

(** ** Mean rank and mean reciprocal rank *)

Section Aggregates.
Import Tensor Valid.

Lemma t_mean_nonempty (a : tensor R) :
  data a <> [] ->
  t_mean a = Some (sum_upto (numel a) (fun i => nth i (data a) 0) / INR (numel a)).
Proof.
  intros H. unfold t_mean, numel.
  destruct (Nat.eqb_spec (length (data a)) 0) as [E | E].
  - apply length_zero_iff_nil in E. contradiction.
  - now rewrite <- vsum_nth.
Qed.

(** C6: on a non-empty list of ranks, MR is the arithmetic mean of the ranks
    and MRR the arithmetic mean of their reciprocals; for the ranks 1, 2, 4
    they are 7/3 and 7/12 = (1 + 0.5 + 0.25) / 3. *)
Theorem mr_mrr_are_means (ranks : list nat) :
  ranks <> [] ->
  mr ranks = Some (sum_upto (length ranks) (fun i => INR (nth i ranks 0%nat))
                   / INR (length ranks)) /\
  mrr ranks = Some (sum_upto (length ranks) (fun i => 1 / INR (nth i ranks 0%nat))
                    / INR (length ranks)) /\
  mr [1; 2; 4]%nat = Some (7 / 3) /\
  mrr [1; 2; 4]%nat = Some ((1 + 0.5 + 0.25) / 3).
Proof.
  intros Hne.
  assert (Hmr : forall rk, rk <> [] ->
            mr rk = Some (sum_upto (length rk) (fun i => INR (nth i rk 0%nat))
                          / INR (length rk))).
  { intros rk Hrk. unfold mr. rewrite t_mean_nonempty.
    - unfold numel, FloatTensor. simpl data. rewrite length_map.
      do 2 f_equal. apply sum_upto_ext; intros i Hi.
      now apply map_nth_in.
    - simpl. destruct rk; [contradiction | discriminate]. }
  assert (Hmrr : forall rk, rk <> [] ->
            mrr rk = Some (sum_upto (length rk) (fun i => 1 / INR (nth i rk 0%nat))
                           / INR (length rk))).
  { intros rk Hrk. unfold mrr. rewrite t_mean_nonempty.
    - unfold numel, t_scalar_div, tmap, FloatTensor. simpl data.
      rewrite !length_map. do 2 f_equal. apply sum_upto_ext; intros i Hi.
      rewrite (map_nth_in _ _ 0) by (rewrite length_map; lia).
      f_equal. now apply map_nth_in.
    - simpl. destruct rk; [contradiction | discriminate]. }
  split; [now apply Hmr|]. split; [now apply Hmrr|]. split.
  - rewrite Hmr by discriminate. f_equal. unfold sum_upto. simpl. lra.
  - rewrite Hmrr by discriminate. f_equal. unfold sum_upto. simpl. lra.
Qed.

Lemma mr_mrr_are_means_witness :
  [1; 2; 4]%nat <> [] /\
  mr [1; 2; 4]%nat = Some (sum_upto 3 (fun i => INR (nth i [1; 2; 4]%nat 0%nat)) / INR 3) /\
  mrr [1; 2; 4]%nat = Some (sum_upto 3 (fun i => 1 / INR (nth i [1; 2; 4]%nat 0%nat)) / INR 3) /\
  mr [1; 2; 4]%nat = Some (7 / 3) /\
  mrr [1; 2; 4]%nat = Some ((1 + 0.5 + 0.25) / 3).
Proof.
  split; [discriminate|].
  apply (mr_mrr_are_means [1; 2; 4]%nat). discriminate.
Defined.

End Aggregates.

(** ** Ranks *)

Section Ranking.
Import Tensor Valid.

Lemma R_ltb_true (x y : R) : R_ltb x y = true <-> x < y.
Proof. unfold R_ltb. destruct (Rlt_dec x y); split; intros; try discriminate; auto; lra. Qed.

Lemma R_ltb_false (x y : R) : R_ltb x y = false <-> y <= x.
Proof. unfold R_ltb. destruct (Rlt_dec x y); split; intros; try discriminate; auto; lra. Qed.

Lemma max_dim0_mask_le (l : list nat) (o v p : nat) :
  max_dim0 (eq_mask l o) = Some (v, p) -> (v <= 1)%nat.
Proof.
  revert v p; induction l as [|a l IH]; intros v p H; simpl in H; [discriminate|].
  destruct (max_dim0 (eq_mask l o)) as [[v' p']|] eqn:E.
  - specialize (IH v' p' eq_refl).
    destruct (v' <=? (if (a =? o)%nat then 1 else 0))%nat; inversion H; subst;
      [destruct (a =? o)%nat; lia | assumption].
  - inversion H; subst. destruct (a =? o)%nat; lia.
Qed.

(** The position found for [o] is that of its first occurrence. *)
Lemma max_dim0_mask_found (pre post : list nat) (o : nat) :
  ~ In o pre ->
  max_dim0 (eq_mask (pre ++ o :: post) o) = Some (1%nat, length pre).
Proof.
  induction pre as [|a pre IH]; intros Hnin; simpl.
  - rewrite Nat.eqb_refl.
    destruct (max_dim0 (eq_mask post o)) as [[v p]|] eqn:E; [|reflexivity].
    apply max_dim0_mask_le in E.
    destruct (Nat.leb_spec v 1); [reflexivity | lia].
  - rewrite IH by (intros H; apply Hnin; now right).
    destruct (Nat.eqb_spec a o) as [-> | Hne]; [exfalso; apply Hnin; now left|].
    reflexivity.
Qed.

Lemma rank_of_split (pre post : list nat) (o : nat) :
  ~ In o pre -> rank_of (pre ++ o :: post) o = Some (length pre + 1)%nat.
Proof.
  intros H. unfold rank_of. now rewrite max_dim0_mask_found.
Qed.

Lemma Permutation_filter_length {A : Type} (p : A -> bool) (l l' : list A) :
  Permutation l l' -> length (filter p l) = length (filter p l').
Proof.
  induction 1 as [| x l l' _ IH | x y l | l l' l'' _ IH1 _ IH2]; simpl.
  - reflexivity.
  - destruct (p x); simpl; congruence.
  - destruct (p x), (p y); reflexivity.
  - congruence.
Qed.

Lemma filter_map_length {A B : Type} (p : B -> bool) (f : A -> B) (l : list A) :
  length (filter p (map f l)) = length (filter (fun a => p (f a)) l).
Proof.
  induction l as [|a l IH]; simpl; [reflexivity|].
  destruct (p (f a)); simpl; congruence.
Qed.

Lemma map_score_seq (scores : list R) :
  map (score scores) (seq 0 (length scores)) = scores.
Proof.
  apply (nth_ext _ _ 0 0).
  - now rewrite length_map, length_seq.
  - intros k Hk. rewrite length_map, length_seq in Hk.
    rewrite (map_nth_in _ _ 0%nat) by (rewrite length_seq; lia).
    now rewrite seq_nth.
Qed.

Lemma count_gt_indices (scores : list R) (idx : list nat) (o : nat) :
  Permutation idx (seq 0 (length scores)) ->
  count_gt scores o
  = length (filter (fun j => R_ltb (score scores o) (score scores j)) idx).
Proof.
  intros Hp. unfold count_gt.
  transitivity (length (filter (fun x => R_ltb (score scores o) x)
                          (map (score scores) (seq 0 (length scores))))).
  - now rewrite map_score_seq.
  - rewrite filter_map_length. symmetry. now apply Permutation_filter_length.
Qed.

Lemma StronglySorted_app_inv {A : Type} (Rel : A -> A -> Prop) (l1 l2 : list A) :
  StronglySorted Rel (l1 ++ l2) ->
  StronglySorted Rel l2 /\ Forall (fun a => Forall (Rel a) l2) l1.
Proof.
  induction l1 as [|a l1 IH]; simpl; intros H.
  - split; [assumption | constructor].
  - apply StronglySorted_inv in H as [Hs Hf].
    destruct (IH Hs) as [H2 H1]. split; [assumption|].
    constructor; [|assumption].
    apply Forall_app in Hf. tauto.
Qed.

Lemma is_topk_in_range (scores : list R) (idx : list nat) (i : nat) :
  is_topk scores idx -> In i idx <-> (i < length scores)%nat.
Proof.
  intros [Hp _]. split; intros H.
  - apply (Permutation_in _ Hp) in H. apply in_seq in H. lia.
  - apply (Permutation_in _ (Permutation_sym Hp)). apply in_seq. lia.
Qed.

Lemma is_topk_NoDup (scores : list R) (idx : list nat) :
  is_topk scores idx -> NoDup idx.
Proof.
  intros [Hp _]. apply (Permutation_NoDup (Permutation_sym Hp)), seq_NoDup.
Qed.

(** Before [o], every entry is either strictly above it or tied with it. *)
Lemma prefix_length (scores : list R) (pre post : list nat) (o : nat) :
  ~ In o pre ->
  Forall (fun i => score scores i >= score scores o) pre ->
  length pre
  = (length (filter (fun j => R_ltb (score scores o) (score scores j)) pre)
     + ties_before scores (pre ++ o :: post) o)%nat.
Proof.
  induction pre as [|a pre IH]; intros Hnin Hge; simpl.
  - now rewrite Nat.eqb_refl.
  - inversion Hge as [|? ? Ha Hge']; subst.
    destruct (Nat.eqb_spec a o) as [-> | Hne]; [exfalso; apply Hnin; now left|].
    rewrite (IH (fun H => Hnin (or_intror H)) Hge') at 1.
    destruct (Req_dec_T (score scores a) (score scores o)) as [E | E].
    + rewrite E. replace (R_ltb (score scores o) (score scores o)) with false
        by (symmetry; apply R_ltb_false; lra).
      lia.
    + replace (R_ltb (score scores o) (score scores a)) with true
        by (symmetry; apply R_ltb_true; lra).
      simpl. lia.
Qed.

Lemma filter_none {A : Type} (p : A -> bool) (l : list A) :
  Forall (fun a => p a = false) l -> filter p l = [].
Proof.
  induction 1 as [|a l Ha _ IH]; simpl; [reflexivity|]. now rewrite Ha.
Qed.

(** The rank recorded for [o]: one more than the number of entries strictly
    above it and of the tied entries listed before it. *)
Lemma rank_decompose (scores : list R) (idx : list nat) (o : nat) :
  is_topk scores idx -> (o < length scores)%nat ->
  rank_of idx o
  = Some (1 + count_gt scores o + ties_before scores idx o)%nat.
Proof.
  intros Htk Ho.
  pose proof (is_topk_NoDup _ _ Htk) as Hnd.
  pose proof (proj2 (is_topk_in_range scores idx o Htk) Ho) as Hin.
  destruct Htk as [Hp Hs].
  apply in_split in Hin as (pre & post & ->).
  assert (Hnin : ~ In o pre).
  { intros H. apply NoDup_remove_2 in Hnd. apply Hnd, in_or_app. now left. }
  rewrite rank_of_split by assumption. f_equal.
  rewrite (count_gt_indices scores _ o Hp).
  apply StronglySorted_app_inv in Hs as [Hs2 Hpre].
  apply StronglySorted_inv in Hs2 as [_ Hpost].
  assert (Hge : Forall (fun i => score scores i >= score scores o) pre).
  { eapply Forall_impl; [|exact Hpre]. intros a Ha. now inversion Ha. }
  rewrite filter_app, length_app. simpl filter.
  replace (R_ltb (score scores o) (score scores o)) with false
    by (symmetry; apply R_ltb_false; lra).
  rewrite (filter_none _ post).
  - rewrite (prefix_length scores pre post o Hnin Hge) at 1. simpl. lia.
  - eapply Forall_impl; [|exact Hpost]. intros a Ha. apply R_ltb_false. lra.
Qed.

Lemma ties_before_none (scores : list R) (idx : list nat) (o : nat) :
  (forall j, In j idx -> j <> o -> score scores j <> score scores o) ->
  ties_before scores idx o = 0%nat.
Proof.
  induction idx as [|a idx IH]; intros H; simpl; [reflexivity|].
  destruct (Nat.eqb_spec a o) as [-> | Hne]; [reflexivity|].
  destruct (Req_dec_T (score scores a) (score scores o)) as [E | E].
  - exfalso. apply (H a); [now left | assumption | assumption].
  - rewrite IH; [reflexivity|]. intros j Hj. apply H. now right.
Qed.

Lemma ranks_of_objects_decompose (scores : list R) (idx : list nat)
    (os_i : list nat) :
  is_topk scores idx -> Forall (fun o => (o < length scores)%nat) os_i ->
  ranks_of_objects idx os_i
  = Some (map (fun o => (1 + count_gt scores o + ties_before scores idx o)%nat) os_i).
Proof.
  intros Htk. induction 1 as [|o os_i Ho _ IH]; simpl; [reflexivity|].
  rewrite (rank_decompose scores idx o Htk Ho). simpl. now rewrite IH.
Qed.

(** C2, as the code has it: for a score vector, the indices [top_indices]
    that topk returns for it and a true object [o] of the vector, the rank
    recorded is 1 + count(scores > score[o]) + the number of entries tied
    with [o] that topk lists before it, over the whole score vector; it is
    1 + count(scores > score[o]) when no other entry has the score of
    [o].  Every true object of the batch element is ranked in this way
    against the same, whole score vector. *)
Theorem rank_counts_greater_and_ties (scores : list R) (top_indices : list nat)
    (o : nat) :
  is_topk scores top_indices -> (o < length scores)%nat ->
  rank_of top_indices o
  = Some (1 + count_gt scores o + ties_before scores top_indices o)%nat /\
  ((forall j, (j < length scores)%nat -> j <> o ->
      score scores j <> score scores o) ->
   rank_of top_indices o = Some (1 + count_gt scores o)%nat) /\
  (forall os_i, Forall (fun o' => (o' < length scores)%nat) os_i ->
     ranks_of_objects top_indices os_i
     = Some (map (fun o' => (1 + count_gt scores o'
                             + ties_before scores top_indices o')%nat) os_i)).
Proof.
  intros Htk Ho. split; [now apply rank_decompose|]. split.
  - intros Huniq. rewrite (rank_decompose scores) by assumption.
    rewrite ties_before_none; [f_equal; lia|].
    intros j Hj. apply Huniq. now apply (is_topk_in_range scores top_indices j Htk).
  - intros os_i Hos. now apply ranks_of_objects_decompose.
Qed.

End Ranking.

(** ** The reference topk and the counterexample on ties *)

Section ReferenceTopk.
Import Tensor Valid.

Lemma insert_desc_perm (scores : list R) (i : nat) (l : list nat) :
  Permutation (insert_desc scores i l) (i :: l).
Proof.
  induction l as [|j l IH]; simpl; [apply Permutation_refl|].
  destruct (R_ltb (score scores i) (score scores j)).
  - eapply Permutation_trans; [apply perm_skip, IH | apply perm_swap].
  - apply Permutation_refl.
Qed.

Lemma insert_desc_sorted (scores : list R) (i : nat) (l : list nat) :
  StronglySorted (fun a b => score scores a >= score scores b) l ->
  StronglySorted (fun a b => score scores a >= score scores b)
    (insert_desc scores i l).
Proof.
  induction l as [|j l IH]; intros Hs; simpl.
  - constructor; constructor.
  - apply StronglySorted_inv in Hs as [Hs Hj].
    destruct (R_ltb (score scores i) (score scores j)) eqn:E.
    + apply R_ltb_true in E. constructor; [now apply IH|].
      apply (Permutation_Forall (Permutation_sym (insert_desc_perm scores i l))).
      constructor; [lra | assumption].
    + apply R_ltb_false in E. constructor.
      * constructor; assumption.
      * constructor; [lra|]. eapply Forall_impl; [|exact Hj].
        intros a Ha. simpl in Ha. lra.
Qed.

Lemma fold_insert_perm (scores : list R) (l : list nat) :
  Permutation (fold_right (insert_desc scores) [] l) l.
Proof.
  induction l as [|i l IH]; simpl; [constructor|].
  eapply Permutation_trans; [apply insert_desc_perm | now apply perm_skip].
Qed.

Lemma fold_insert_sorted (scores : list R) (l : list nat) :
  StronglySorted (fun a b => score scores a >= score scores b)
    (fold_right (insert_desc scores) [] l).
Proof.
  induction l as [|i l IH]; simpl; [constructor | now apply insert_desc_sorted].
Qed.

(** The reference implementation meets the contract of topk. *)
Lemma topk_stable_is_topk (scores : list R) : is_topk scores (topk_stable scores).
Proof.
  split; [apply fold_insert_perm | apply fold_insert_sorted].
Qed.

Lemma is_topk_tied_pair : is_topk [1; 1] [0; 1]%nat.
Proof.
  split; [apply Permutation_refl|].
  apply SSorted_cons.
  - apply SSorted_cons; [apply SSorted_nil | apply Forall_nil].
  - apply Forall_cons; [|apply Forall_nil]. unfold score; simpl. lra.
Qed.

Lemma count_gt_tied_pair (o : nat) : (o < 2)%nat -> count_gt [1; 1] o = 0%nat.
Proof.
  intros Ho. unfold count_gt, score.
  assert (H : nth o [1; 1] 0 = 1) by (destruct o as [|[|o]]; [reflexivity.. | lia]).
  rewrite H. simpl.
  replace (R_ltb 1 1) with false by (symmetry; apply R_ltb_false; lra).
  reflexivity.
Qed.

(** C2 does not hold on a tie: with the scores [1; 1] the order
    [0; 1] is one that topk may return, and the entity 1 gets the rank 2
    while no score is strictly above its own. *)
Lemma rank_tie_counterexample :
  is_topk [1; 1] [0; 1]%nat /\
  (1 < length [1; 1]%R)%nat /\
  rank_of [0; 1]%nat 1 = Some 2%nat /\
  (1 + count_gt [1; 1]%R 1)%nat = 1%nat.
Proof.
  split; [apply is_topk_tied_pair|]. split; [simpl; lia|].
  split; [reflexivity|]. rewrite count_gt_tied_pair; [reflexivity | lia].
Qed.

(** Whatever order topk picks on the tied pair, one of the two entities
    gets a rank that is not 1 + count(scores > score[o]). *)
Lemma rank_tie_any_order (idx : list nat) :
  is_topk [1; 1] idx ->
  exists o, (o < 2)%nat /\ rank_of idx o = Some 2%nat /\
            (1 + count_gt [1; 1]%R o)%nat = 1%nat.
Proof.
  intros Htk. pose proof Htk as [Hp _]. simpl in Hp.
  pose proof (Permutation_length Hp) as Hl.
  destruct idx as [|a [|b [|c idx]]]; simpl in Hl; try discriminate.
  exists b. assert (Hb : In b [0; 1]%nat)
    by (apply (Permutation_in _ Hp); right; now left).
  assert (Hab : a <> b).
  { pose proof (is_topk_NoDup _ _ Htk) as Hnd. inversion Hnd; subst.
    intros ->. apply H1. now left. }
  assert (Hb2 : (b < 2)%nat) by (simpl in Hb; lia).
  split; [assumption|]. split.
  - apply (rank_of_split [a] [] b). intros [H | []]. contradiction.
  - now rewrite count_gt_tied_pair.
Qed.

Ltac eval_ltb :=
  repeat match goal with
  | |- context [R_ltb ?x ?y] =>
      first [ replace (R_ltb x y) with true by (symmetry; apply R_ltb_true; lra)
            | replace (R_ltb x y) with false by (symmetry; apply R_ltb_false; lra) ]
  end.

Example topk_stable_312 : topk_stable [3; 1; 2] = [0; 2; 1]%nat.
Proof.
  unfold topk_stable. simpl.
  repeat (unfold score; simpl; eval_ltb; simpl). reflexivity.
Qed.

Example rank_of_312 : rank_of [0; 2; 1]%nat 2 = Some 2%nat.
Proof. reflexivity. Qed.

Example topk_stable_tied_pair : topk_stable [1; 1] = [0; 1]%nat.
Proof.
  unfold topk_stable. simpl.
  repeat (unfold score; simpl; eval_ltb; simpl). reflexivity.
Qed.

Lemma scores_312_distinct (j : nat) :
  (j < length [3; 1; 2]%R)%nat -> j <> 2%nat ->
  score [3; 1; 2] j <> score [3; 1; 2] 2.
Proof.
  intros Hj Hne. unfold score.
  destruct j as [|[|[|j]]]; simpl in *; try lra; lia.
Qed.

Lemma rank_counts_greater_and_ties_witness :
  is_topk [3; 1; 2] (topk_stable [3; 1; 2]) /\
  (2 < length [3; 1; 2]%R)%nat /\
  rank_of (topk_stable [3; 1; 2]) 2
  = Some (1 + count_gt [3; 1; 2]%R 2
          + ties_before [3; 1; 2]%R (topk_stable [3; 1; 2]%R) 2)%nat /\
  rank_of (topk_stable [3; 1; 2]) 2 = Some (1 + count_gt [3; 1; 2]%R 2)%nat.
Proof.
  split; [apply topk_stable_is_topk|]. split; [simpl; lia|].
  destruct (rank_counts_greater_and_ties [3; 1; 2] (topk_stable [3; 1; 2]) 2
              (topk_stable_is_topk [3; 1; 2])
              (Nat.lt_succ_diag_r 2)) as (H1 & H2 & _).
  split; [exact H1 | exact (H2 scores_312_distinct)].
Defined.

End ReferenceTopk.
(** ** The sigmoid of the inference path and the ranking *)

Section SigmoidOrder.
Import Tensor Layers Valid StableBCELoss.







Section Monotone.
Variable sg : R -> R.
Hypothesis sg_mono : forall x y : R, x <= y -> sg x <= sg y.







End Monotone.





End SigmoidOrder.

(** ** Row-major layout *)

Section Layout.
Import Tensor.

Lemma block_nth {A : Type} (k i j : nat) (l : list A) (d : A) :
  (j < k)%nat -> nth j (block k i l) d = nth (i * k + j) l d.
Proof.
  intros Hj. unfold block. rewrite nth_firstn.
  destruct (Nat.ltb_spec j k); [|lia]. apply nth_skipn.
Qed.

Lemma block_length {A : Type} (k i : nat) (l : list A) :
  ((i + 1) * k <= length l)%nat -> length (block k i l) = k.
Proof.
  intros H. unfold block. rewrite length_firstn, length_skipn. lia.
Qed.

(** Storage built block by block, all blocks of one length [k]. *)
Lemma flat_map_uniform_length {A : Type} (f : nat -> list A) (k s n : nat) :
  (forall i, (s <= i < s + n)%nat -> length (f i) = k) ->
  length (flat_map f (seq s n)) = (n * k)%nat.
Proof.
  revert s; induction n as [|n IH]; intros s H; simpl; [reflexivity|].
  rewrite length_app, H by lia. rewrite IH; [lia|]. intros i Hi. apply H. lia.
Qed.

Lemma flat_map_uniform_nth {A : Type} (f : nat -> list A) (k s n b q : nat) (d : A) :
  (forall i, (s <= i < s + n)%nat -> length (f i) = k) ->
  (b < n)%nat -> (q < k)%nat ->
  nth (b * k + q) (flat_map f (seq s n)) d = nth q (f (s + b)%nat) d.
Proof.
  revert s b; induction n as [|n IH]; intros s b H Hb Hq; [lia|].
  simpl. destruct b as [|b].
  - rewrite app_nth1 by (rewrite H; lia). simpl. now rewrite Nat.add_0_r.
  - rewrite app_nth2 by (rewrite H; nia). rewrite H by lia.
    replace (S b * k + q - k)%nat with (b * k + q)%nat by lia.
    rewrite IH; [f_equal; f_equal; lia | | lia | assumption].
    intros i Hi. apply H. lia.
Qed.

Lemma map_seq_nth {A : Type} (f : nat -> A) (n j : nat) (d : A) :
  (j < n)%nat -> nth j (map f (seq 0 n)) d = f j.
Proof.
  intros Hj. rewrite (map_nth_in _ _ 0%nat) by (rewrite length_seq; lia).
  now rewrite seq_nth.
Qed.

(** A 2-dimensional storage generated element by element. *)
Lemma gen2_length {A : Type} (f : nat -> nat -> A) (n m : nat) :
  length (flat_map (fun i => map (fun j => f i j) (seq 0 m)) (seq 0 n)) = (n * m)%nat.
Proof.
  apply flat_map_uniform_length. intros i _. now rewrite length_map, length_seq.
Qed.

Lemma gen2_nth {A : Type} (f : nat -> nat -> A) (n m i j : nat) (d : A) :
  (i < n)%nat -> (j < m)%nat ->
  nth (i * m + j) (flat_map (fun i => map (fun j => f i j) (seq 0 m)) (seq 0 n)) d
  = f i j.
Proof.
  intros Hi Hj.
  rewrite (flat_map_uniform_nth _ m) by
    (try (intros; rewrite length_map, length_seq); auto).
  simpl. now apply map_seq_nth.
Qed.

Lemma gen4_length (n c h w : nat) (f : nat -> nat -> nat -> nat -> R) :
  length (gen4 n c h w f) = (n * (c * (h * w)))%nat.
Proof.
  unfold gen4. apply flat_map_uniform_length. intros b _.
  apply flat_map_uniform_length. intros o _. apply gen2_length.
Qed.

Lemma gen4_nth (n c h w : nat) (f : nat -> nat -> nat -> nat -> R) (b o i j : nat) :
  (b < n)%nat -> (o < c)%nat -> (i < h)%nat -> (j < w)%nat ->
  nth (((b * c + o) * h + i) * w + j) (gen4 n c h w f) 0 = f b o i j.
Proof.
  intros Hb Ho Hi Hj. unfold gen4.
  assert (H1 : (i * w + j < h * w)%nat) by nia.
  assert (H2 : (o * (h * w) + (i * w + j) < c * (h * w))%nat) by nia.
  replace (((b * c + o) * h + i) * w + j)%nat
    with (b * (c * (h * w)) + (o * (h * w) + (i * w + j)))%nat by nia.
  rewrite (flat_map_uniform_nth _ (c * (h * w))); [| | assumption | assumption].
  - simpl "+".
    rewrite (flat_map_uniform_nth _ (h * w)); [| | assumption | assumption].
    + simpl "+". now apply gen2_nth.
    + intros; apply gen2_length.
  - intros. apply flat_map_uniform_length. intros; apply gen2_length.
Qed.

Lemma offset4 (n c h w b o i j : nat) :
  offset [n; c; h; w] [b; o; i; j] = (((b * c + o) * h + i) * w + j)%nat.
Proof. reflexivity. Qed.

Lemma concat_uniform_length {A : Type} (rows : list (list A)) (k : nat) :
  Forall (fun r => length r = k) rows -> length (concat rows) = (length rows * k)%nat.
Proof.
  induction 1 as [|r rows Hr _ IH]; simpl; [reflexivity|].
  rewrite length_app, IH, Hr. reflexivity.
Qed.

Lemma concat_uniform_nth {A : Type} (rows : list (list A)) (k b q : nat) (d : A) :
  Forall (fun r => length r = k) rows -> (b < length rows)%nat -> (q < k)%nat ->
  nth (b * k + q) (concat rows) d = nth q (nth b rows []) d.
Proof.
  intros H; revert b; induction H as [|r rows Hr _ IH]; intros b Hb Hq;
    simpl in Hb; [lia|].
  simpl. destruct b as [|b].
  - now rewrite app_nth1 by lia.
  - rewrite app_nth2 by nia. rewrite Hr.
    replace (S b * k + q - k)%nat with (b * k + q)%nat by lia.
    apply IH; [lia | assumption].
Qed.

Lemma init_tensor_wf {A : Type} (s : list nat) (f : nat -> A) : wf (init_tensor s f).
Proof. unfold wf, init_tensor. simpl. now rewrite length_map, length_seq. Qed.

End Layout.

(** ** The embedding stores *)

Section EmbeddingFacts.
Import Tensor Layers Model.

Lemma in_range_test (n : nat) (i : Z) :
  ((0 <=? i)%Z && (i <? Z.of_nat n)%Z)%bool = true <-> in_range n i.
Proof. unfold in_range. rewrite andb_true_iff, Z.leb_le, Z.ltb_lt. tauto. Qed.

Lemma lookup_new_in (num dim : nat) (init : nat -> R) (i : Z) :
  in_range num i ->
  exists v, lookup (Embedding_new num dim init) i = Some v /\
            length v = dim /\
            forall j, (j < dim)%nat ->
              nth j v 0 = get 0 (weight (Embedding_new num dim init)) [Z.to_nat i; j].
Proof.
  intros Hi. unfold lookup. simpl num_embeddings.
  rewrite (proj2 (in_range_test num i) Hi). eexists; split; [reflexivity|].
  simpl. unfold in_range in Hi. split.
  - apply block_length. rewrite length_map, length_seq. simpl. nia.
  - intros j Hj. unfold get. simpl. now apply block_nth.
Qed.

Lemma lookup_out (e : Embedding) (i : Z) :
  ~ in_range (num_embeddings e) i -> lookup e i = None.
Proof.
  intros Hi. unfold lookup.
  destruct ((0 <=? i)%Z && (i <? Z.of_nat (num_embeddings e))%Z)%bool eqn:E;
    [|reflexivity].
  apply in_range_test in E. contradiction.
Qed.

Lemma lookup_all_in (num dim : nat) (init : nat -> R) (idx : list Z) :
  Forall (in_range num) idx ->
  exists rows, lookup_all (Embedding_new num dim init) idx = Some rows /\
    length rows = length idx /\
    Forall (fun v => length v = dim) rows /\
    forall b j, (b < length idx)%nat -> (j < dim)%nat ->
      nth j (nth b rows []) 0
      = get 0 (weight (Embedding_new num dim init)) [Z.to_nat (nth b idx 0%Z); j].
Proof.
  induction 1 as [|i idx Hi _ IH].
  - exists []. simpl. repeat split; [constructor | intros; lia].
  - destruct (lookup_new_in num dim init i Hi) as (v & Hv & Hlen & Hnth).
    destruct IH as (rows & Hrows & Hl & Hf & Hn).
    exists (v :: rows). simpl. rewrite Hv. simpl. rewrite Hrows. simpl.
    split; [reflexivity|]. split; [now rewrite Hl|]. split; [now constructor|].
    intros [|b] j Hb Hj; [now apply Hnth | apply Hn; [lia | assumption]].
Qed.

Lemma lookup_all_out (e : Embedding) (idx : list Z) :
  Exists (fun i => ~ in_range (num_embeddings e) i) idx -> lookup_all e idx = None.
Proof.
  induction 1 as [i idx Hi | i idx _ IH]; simpl.
  - now rewrite lookup_out.
  - rewrite IH. destruct (lookup e i); reflexivity.
Qed.

(** Calling an embedding on indices in range yields one row per index. *)
Lemma Embedding_call_in (num dim : nat) (init : nat -> R) (idx : list Z) :
  Forall (in_range num) idx ->
  exists t, Embedding_call (Embedding_new num dim init) idx = Some t /\
    shape t = [length idx; dim] /\ wf t /\
    forall b j, (b < length idx)%nat -> (j < dim)%nat ->
      nth (b * dim + j) (data t) 0
      = get 0 (weight (Embedding_new num dim init)) [Z.to_nat (nth b idx 0%Z); j].
Proof.
  intros Hidx. destruct (lookup_all_in num dim init idx Hidx) as (rows & Hr & Hl & Hf & Hn).
  unfold Embedding_call. rewrite Hr. simpl. eexists; split; [reflexivity|].
  split; [reflexivity|]. split.
  - unfold wf. simpl. rewrite (concat_uniform_length _ dim) by assumption. lia.
  - intros b j Hb Hj. simpl.
    rewrite (concat_uniform_nth _ dim) by (try assumption; lia). now apply Hn.
Qed.

Lemma Embedding_call_out (e : Embedding) (idx : list Z) :
  Exists (fun i => ~ in_range (num_embeddings e) i) idx -> Embedding_call e idx = None.
Proof.
  intros H. unfold Embedding_call. now rewrite lookup_all_out.
Qed.

(** What [__init__] builds. *)
Lemma DSConvE_init_inv (n_e n_r h w c k : nat) (pe pf pp : R) (P : Params)
    (m : DSConvE) :
  DSConvE_init n_e n_r h w c k pe pf pp P = Some m ->
  embedding_size_h m = h /\ embedding_size_w m = w /\
  embed_e m = Embedding_new n_e (h * w) (embed_e_init P) /\
  embed_r m = Embedding_new n_r (h * w) (embed_r_init P) /\
  DSConv2d_new 1 c k 0 (depthwise_init P) (pointwise_init P) = Some (conv m) /\
  (0 <= flattened_size h w c k)%Z /\
  fc m = Linear_new (Z.to_nat (flattened_size h w c k)) (h * w)
           (fc_weight_init P) (fc_bias_init P) /\
  num_features (bn2d m) = c /\ num_features (bn1d m) = (h * w)%nat.
Proof.
  unfold DSConvE_init, Dropout_new. intros H.
  destruct (Rle_dec 0 pe); [|discriminate]. destruct (Rle_dec pe 1); [|discriminate].
  cbn [bind] in H.
  destruct (DSConv2d_new 1 c k 0 (depthwise_init P) (pointwise_init P)) as [ds|];
    cbn [bind] in H; [|discriminate].
  destruct (Rle_dec 0 pf); [|discriminate]. destruct (Rle_dec pf 1); [|discriminate].
  cbn [bind] in H.
  destruct (Z.ltb_spec (flattened_size h w c k) 0); [discriminate|].
  destruct (Rle_dec 0 pp); [|discriminate]. destruct (Rle_dec pp 1); [|discriminate].
  cbn [bind] in H.
  inversion H; subst; simpl. repeat split; auto.
Qed.


(** [__init__] returns a model for dropout probabilities within [0, 1]
    and a non-negative [flattened_size]. *)
Lemma DSConvE_init_some (n_e n_r h w c k : nat) (pe pf pp : R) (P : Params) :
  0 <= pe <= 1 -> 0 <= pf <= 1 -> 0 <= pp <= 1 ->
  (0 <= flattened_size h w c k)%Z ->
  exists m, DSConvE_init n_e n_r h w c k pe pf pp P = Some m.
Proof.
  intros He Hf Hp Hfs. unfold DSConvE_init, Dropout_new.
  destruct (Rle_dec 0 pe); [|lra]. destruct (Rle_dec pe 1); [|lra]. cbn [bind].
  unfold DSConv2d_new, Conv2d_new. rewrite (Nat.mod_1_r c). cbn.
  destruct (Rle_dec 0 pf); [|lra]. destruct (Rle_dec pf 1); [|lra].
  destruct (Z.ltb_spec (flattened_size h w c k) 0); [lia|].
  destruct (Rle_dec 0 pp); [|lra]. destruct (Rle_dec pp 1); [|lra].
  eexists. reflexivity.
Qed.

(** C9: an index within range selects a vector of exactly [H * W] values,
    the row of the weight matrix with that number; an index outside the
    range makes the lookup fail, and with it [forward] and [test]. *)
Theorem embedding_lookup_checked (n_e n_r h w c k : nat) (pe pf pp : R)
    (P : Params) (m : DSConvE) :
  DSConvE_init n_e n_r h w c k pe pf pp P = Some m ->
  (forall i, in_range n_e i ->
     exists v, lookup (embed_e m) i = Some v /\ length v = (h * w)%nat /\
       forall j, (j < h * w)%nat ->
         nth j v 0 = get 0 (weight (embed_e m)) [Z.to_nat i; j]) /\
  (forall i, in_range n_r i ->
     exists v, lookup (embed_r m) i = Some v /\ length v = (h * w)%nat /\
       forall j, (j < h * w)%nat ->
         nth j v 0 = get 0 (weight (embed_r m)) [Z.to_nat i; j]) /\
  (forall i, ~ in_range n_e i -> lookup (embed_e m) i = None) /\
  (forall i, ~ in_range n_r i -> lookup (embed_r m) i = None) /\
  (forall s r,
     Exists (fun i => ~ in_range n_e i) s \/ Exists (fun i => ~ in_range n_r i) r ->
     forward m s r = None /\ forall sg, test sg m s r = None).
Proof.
  intros Hinit.
  destruct (DSConvE_init_inv _ _ _ _ _ _ _ _ _ _ _ Hinit)
    as (_ & _ & He & Hr & _).
  rewrite He, Hr.
  split; [intros i Hi; now apply lookup_new_in|].
  split; [intros i Hi; now apply lookup_new_in|].
  split; [intros i Hi; now apply lookup_out|].
  split; [intros i Hi; now apply lookup_out|].
  intros s r Hbad.
  assert (Hci : conv_input m s r = None).
  { unfold conv_input. rewrite He, Hr. destruct Hbad as [Hs | Hr'].
    - now rewrite (Embedding_call_out _ s).
    - rewrite (Embedding_call_out _ r) by assumption.
      destruct (Embedding_call _ s); reflexivity. }
  assert (Hf : forward m s r = None) by (unfold forward; now rewrite Hci).
  split; [exact Hf | intros sg; unfold test; now rewrite Hf].
Qed.

End EmbeddingFacts.

(** ** Reshape and stack *)

Section ReshapeAndStack.
Import Tensor Layers Model.

Lemma view_infer_first_rows {A : Type} (t : tensor A) (b w h : nat) :
  (0 < w)%nat -> (0 < h)%nat -> numel t = (b * (h * w))%nat ->
  view_infer_first t [w; h] = Some (mkTensor [b; w; h] (data t)).
Proof.
  intros Hw Hh Hn. unfold view_infer_first. simpl numel_of.
  destruct (Nat.eqb_spec (w * (h * 1)) 0) as [E | E]; [nia|].
  rewrite Hn. replace (b * (h * w))%nat with (b * (w * (h * 1)))%nat by nia.
  rewrite Nat.Div0.mod_mul, Nat.div_mul by assumption. reflexivity.
Qed.

(** The stacked image of one batch element: the [W] rows of the subject
    grid, then the [W] rows of the relation grid. *)
Lemma cat_dim1_grids (es er : tensor R) (b w h : nat) :
  shape es = [b; w; h] -> shape er = [b; w; h] ->
  length (data es) = (b * (w * h))%nat -> length (data er) = (b * (w * h))%nat ->
  exists c, cat_dim1 es er = Some c /\
    shape c = [b; (w + w)%nat; h] /\ wf c /\
    forall n i j, (n < b)%nat -> (i < w + w)%nat -> (j < h)%nat ->
      nth ((n * (w + w) + i) * h + j) (data c) 0
      = if (i <? w)%nat
        then nth (n * (w * h) + (i * h + j)) (data es) 0
        else nth (n * (w * h) + ((i - w) * h + j)) (data er) 0.
Proof.
  intros Hses Hser Hles Hler. unfold cat_dim1. rewrite Hses, Hser, !Nat.eqb_refl.
  simpl andb. eexists; split; [reflexivity|]. split; [reflexivity|].
  set (chunk := fun i : nat =>
          block (w * h) i (data es) ++ block (w * h) i (data er)).
  assert (Hchunk : forall i, (0 <= i < 0 + b)%nat ->
            length (chunk i) = ((w + w) * h)%nat).
  { intros i Hi. unfold chunk.
    rewrite length_app, !block_length by nia. lia. }
  split.
  - unfold wf. simpl. rewrite (flat_map_uniform_length _ _ _ _ Hchunk). lia.
  - intros n i j Hn Hi Hj. simpl data.
    assert (Hq : (i * h + j < (w + w) * h)%nat) by nia.
    replace ((n * (w + w) + i) * h + j)%nat
      with (n * ((w + w) * h) + (i * h + j))%nat by nia.
    rewrite (flat_map_uniform_nth _ _ _ _ _ _ _ Hchunk Hn Hq). simpl "+".
    unfold chunk.
    destruct (Nat.ltb_spec i w) as [Hlt | Hge].
    + rewrite app_nth1 by (rewrite block_length; nia).
      apply block_nth. nia.
    + rewrite app_nth2 by (rewrite block_length; nia).
      rewrite block_length by nia.
      replace (i * h + j - w * h)%nat with ((i - w) * h + j)%nat by nia.
      apply block_nth. nia.
Qed.

(** The stacked input of a valid batch: its shape and its elements. *)
Lemma conv_input_ok (n_e n_r h w c k : nat) (pe pf pp : R)
    (P : Params) (m : DSConvE) (s r : list Z) :
  DSConvE_init n_e n_r h w c k pe pf pp P = Some m ->
  (0 < h)%nat -> (0 < w)%nat ->
  (1 <= length s)%nat -> length r = length s ->
  Forall (in_range n_e) s -> Forall (in_range n_r) r ->
  exists ci, conv_input m s r = Some ci /\
    shape ci = [length s; 1%nat; (2 * w)%nat; h] /\ wf ci /\
    forall b i j, (b < length s)%nat -> (i < 2 * w)%nat -> (j < h)%nat ->
      get 0 ci [b; 0%nat; i; j]
      = if (i <? w)%nat
        then get 0 (weight (embed_e m)) [Z.to_nat (nth b s 0%Z); (i * h + j)%nat]
        else get 0 (weight (embed_r m)) [Z.to_nat (nth b r 0%Z); ((i - w) * h + j)%nat].
Proof.
  intros Hinit Hh Hw Hbatch Hlen Hs Hr.
  destruct (DSConvE_init_inv _ _ _ _ _ _ _ _ _ _ _ Hinit)
    as (Hmh & Hmw & He & Her & _).
  destruct (Embedding_call_in n_e (h * w) (embed_e_init P) s Hs)
    as (es & Hes & Hses & Hwes & Hnes).
  destruct (Embedding_call_in n_r (h * w) (embed_r_init P) r Hr)
    as (er & Hcer & Hser & Hwer & Hner).
  unfold conv_input. rewrite He, Her, Hes, Hcer, Hmh, Hmw. simpl bind.
  assert (Hles : length (data es) = (length s * (h * w))%nat)
    by (unfold wf in Hwes; rewrite Hwes, Hses; simpl; lia).
  assert (Hler : length (data er) = (length s * (h * w))%nat)
    by (unfold wf in Hwer; rewrite Hwer, Hser, Hlen; simpl; lia).
  rewrite (view_infer_first_rows es (length s) w h Hw Hh Hles).
  rewrite (view_infer_first_rows er (length s) w h Hw Hh Hler). simpl bind.
  destruct (cat_dim1_grids (mkTensor [length s; w; h] (data es))
              (mkTensor [length s; w; h] (data er)) (length s) w h)
    as (ct & Hct & Hsct & Hwct & Hnct); try reflexivity; simpl; try nia.
  rewrite Hct. simpl bind. unfold unsqueeze1. rewrite Hsct.
  eexists; split; [reflexivity|]. simpl shape.
  split; [do 3 f_equal; lia|]. split.
  - unfold wf in *. simpl. rewrite Hwct, Hsct. simpl. lia.
  - intros b i j Hb Hi Hj. unfold get at 1. simpl shape. simpl data.
    rewrite offset4.
    replace (((b * 1 + 0) * (w + w) + i) * h + j)%nat
      with ((b * (w + w) + i) * h + j)%nat by nia.
    rewrite Hnct by lia. simpl data.
    destruct (Nat.ltb_spec i w) as [Hlt | Hge].
    + rewrite <- Hnes by nia. f_equal. nia.
    + rewrite <- Hner by nia. f_equal. nia.
Qed.

(** C7: for a model built by [__init__] with positive [H] and [W] and a
    batch of at least one subject and as many relations, all within range,
    the stacked input has shape [(batch, 1, 2W, H)]; row [i] and column [j]
    of the image of batch element [b] hold component [i * H + j] of the
    subject embedding for [i < W], and component [(i - W) * H + j] of the
    relation embedding for [W <= i < 2W]. *)
Theorem conv_input_shape_and_layout (n_e n_r h w c k : nat) (pe pf pp : R)
    (P : Params) (m : DSConvE) (s r : list Z) :
  DSConvE_init n_e n_r h w c k pe pf pp P = Some m ->
  (0 < h)%nat -> (0 < w)%nat ->
  (1 <= length s)%nat -> length r = length s ->
  Forall (in_range n_e) s -> Forall (in_range n_r) r ->
  exists ci, conv_input m s r = Some ci /\
    shape ci = [length s; 1%nat; (2 * w)%nat; h] /\ wf ci /\
    forall b i j, (b < length s)%nat -> (i < 2 * w)%nat -> (j < h)%nat ->
      get 0 ci [b; 0%nat; i; j]
      = if (i <? w)%nat
        then get 0 (weight (embed_e m)) [Z.to_nat (nth b s 0%Z); (i * h + j)%nat]
        else get 0 (weight (embed_r m)) [Z.to_nat (nth b r 0%Z); ((i - w) * h + j)%nat].
Proof. apply conv_input_ok. Qed.

End ReshapeAndStack.

(** ** The depthwise-separable convolution and the projection *)

Section ConvBlock.
Import Tensor Layers Model.

Lemma Conv2d_call_ok (cv : Conv2d) (x : tensor R) (n h w : nat) :
  shape x = [n; in_channels cv; h; w] ->
  (1 <= out_channels cv)%nat ->
  (1 <= kernel_size cv)%nat ->
  (kernel_size cv <= h + 2 * padding cv)%nat ->
  (kernel_size cv <= w + 2 * padding cv)%nat ->
  Conv2d_call cv x
  = Some (mkTensor [n; out_channels cv;
                    (h + 2 * padding cv - kernel_size cv + 1)%nat;
                    (w + 2 * padding cv - kernel_size cv + 1)%nat]
            (gen4 n (out_channels cv)
               (h + 2 * padding cv - kernel_size cv + 1)
               (w + 2 * padding cv - kernel_size cv + 1)
               (conv_at cv h w x))).
Proof.
  intros Hs Ho Hk Hh Hw. unfold Conv2d_call. rewrite Hs.
  unfold conv2d_batched. rewrite Nat.eqb_refl. simpl negb.
  destruct (Nat.eqb_spec (out_channels cv) 0); [lia|].
  destruct (Nat.eqb_spec (kernel_size cv) 0); [lia|].
  destruct (Nat.ltb_spec (h + 2 * padding cv) (kernel_size cv)); [lia|].
  destruct (Nat.ltb_spec (w + 2 * padding cv) (kernel_size cv)); [lia|].
  reflexivity.
Qed.

Lemma get_padded_0 (h w : nat) (x : tensor R) (b c i j : nat) :
  (i < h)%nat -> (j < w)%nat -> get_padded 0 h w x b c i j = get 0 x [b; c; i; j].
Proof.
  intros Hi Hj. unfold get_padded. simpl.
  destruct (Nat.ltb_spec i h); [|lia]. destruct (Nat.ltb_spec j w); [|lia].
  simpl. now rewrite !Nat.sub_0_r.
Qed.

(** The depthwise convolution of the model: one [k * k] kernel on the one
    input channel, no padding. *)
Lemma depthwise_at (k : nat) (W : tensor R) (h w : nat) (x : tensor R)
    (b i j : nat) :
  (i + k <= h)%nat -> (j + k <= w)%nat ->
  conv_at (mkConv2d 1 1 k 0 1 W) h w x b 0 i j
  = sum_upto k (fun di => sum_upto k (fun dj =>
      get 0 W [0; 0; di; dj]%nat * get 0 x [b; 0%nat; (i + di)%nat; (j + dj)%nat])).
Proof.
  intros Hi Hj. unfold conv_at. simpl. rewrite sum_upto_1.
  apply sum_upto_ext; intros di Hdi. apply sum_upto_ext; intros dj Hdj.
  rewrite get_padded_0 by lia. reflexivity.
Qed.

(** The pointwise convolution: each output channel scales the one input
    channel. *)
Lemma pointwise_at (c : nat) (W : tensor R) (h w : nat) (x : tensor R)
    (b o i j : nat) :
  (o < c)%nat -> (i < h)%nat -> (j < w)%nat ->
  conv_at (mkConv2d 1 c 1 0 1 W) h w x b o i j
  = get 0 W [o; 0; 0; 0]%nat * get 0 x [b; 0%nat; i; j].
Proof.
  intros Ho Hi Hj. unfold conv_at. simpl kernel_size. simpl in_channels.
  simpl out_channels. simpl groups. simpl padding. simpl conv_weight.
  rewrite (Nat.div_1_r c). change (1 / 1)%nat with 1%nat.
  rewrite !sum_upto_1, (Nat.div_small o c) by assumption.
  rewrite get_padded_0 by lia. simpl. now rewrite !Nat.add_0_r.
Qed.

Lemma DSConv2d_new_model (c k : nat) (dw pw : nat -> R) :
  DSConv2d_new 1 c k 0 dw pw
  = Some (mkDSConv2d (mkConv2d 1 1 k 0 1 (init_tensor [1; 1; k; k]%nat dw))
            (mkConv2d 1 c 1 0 1 (init_tensor [c; 1; 1; 1]%nat pw))).
Proof.
  unfold DSConv2d_new, Conv2d_new.
  rewrite (Nat.mod_1_r c). reflexivity.
Qed.

(** The feature map of the two-stage convolution. *)
Lemma DSConv2d_forward_model (c k : nat) (dw pw : nat -> R) (x : tensor R)
    (n hh ww : nat) :
  (1 <= c)%nat -> (1 <= k)%nat -> (k <= hh)%nat -> (k <= ww)%nat ->
  shape x = [n; 1%nat; hh; ww] ->
  exists y,
    DSConv2d_forward
      (mkDSConv2d (mkConv2d 1 1 k 0 1 (init_tensor [1; 1; k; k]%nat dw))
         (mkConv2d 1 c 1 0 1 (init_tensor [c; 1; 1; 1]%nat pw))) x = Some y /\
    shape y = [n; c; (hh - k + 1)%nat; (ww - k + 1)%nat] /\ wf y /\
    forall b o i j, (b < n)%nat -> (o < c)%nat ->
      (i < hh - k + 1)%nat -> (j < ww - k + 1)%nat ->
      get 0 y [b; o; i; j]
      = get 0 (init_tensor [c; 1; 1; 1]%nat pw) [o; 0; 0; 0]%nat *
        sum_upto k (fun di => sum_upto k (fun dj =>
          get 0 (init_tensor [1; 1; k; k]%nat dw) [0; 0; di; dj]%nat *
          get 0 x [b; 0%nat; (i + di)%nat; (j + dj)%nat])).
Proof.
  intros Hc Hk Hh Hw Hs. unfold DSConv2d_forward. simpl depthwise. simpl pointwise.
  rewrite (Conv2d_call_ok _ x n hh ww) by (simpl; try assumption; lia).
  simpl bind. simpl kernel_size. simpl padding. simpl out_channels.
  replace (hh + 0 - k + 1)%nat with (hh - k + 1)%nat by lia.
  replace (ww + 0 - k + 1)%nat with (ww - k + 1)%nat by lia.
  set (mid := @mkTensor R [n; 1%nat; (hh - k + 1)%nat; (ww - k + 1)%nat] _).
  rewrite (Conv2d_call_ok _ mid n (hh - k + 1) (ww - k + 1))
    by (simpl; try reflexivity; lia).
  simpl kernel_size. simpl padding. simpl out_channels.
  replace (hh - k + 1 + 2 * 0 - 1 + 1)%nat with (hh - k + 1)%nat by lia.
  replace (ww - k + 1 + 2 * 0 - 1 + 1)%nat with (ww - k + 1)%nat by lia.
  eexists; split; [reflexivity|]. split; [reflexivity|]. split.
  - unfold wf. simpl. rewrite gen4_length. lia.
  - intros b o i j Hb Ho Hi Hj. unfold get at 1. simpl shape. simpl data.
    rewrite offset4, gen4_nth by assumption.
    rewrite pointwise_at by assumption. f_equal.
    unfold get at 1. subst mid. simpl shape. simpl data.
    rewrite offset4, gen4_nth by lia.
    apply depthwise_at; lia.
Qed.

Lemma flattened_size_nat (h w c k : nat) :
  (k <= 2 * w)%nat -> (k <= h)%nat ->
  Z.to_nat (flattened_size h w c k) = (c * (2 * w - k + 1) * (h - k + 1))%nat.
Proof.
  intros Hw Hh. unfold flattened_size.
  replace (Z.of_nat w * 2 - Z.of_nat k + 1)%Z with (Z.of_nat (2 * w - k + 1)) by lia.
  replace (Z.of_nat h - Z.of_nat k + 1)%Z with (Z.of_nat (h - k + 1)) by lia.
  rewrite <- !Nat2Z.inj_mul, Nat2Z.id. lia.
Qed.

Lemma Flatten_forward_ok (y : tensor R) (n c hh ww : nat) :
  (1 <= n)%nat -> shape y = [n; c; hh; ww] -> wf y ->
  Flatten_forward y = Some (mkTensor [n; (c * hh * ww)%nat] (data y)).
Proof.
  intros Hn Hs Hwf. unfold Flatten_forward, view_infer_last. rewrite Hs.
  destruct (Nat.eqb_spec n 0); [lia|].
  assert (Hnum : numel y = (n * (c * hh * ww))%nat)
    by (unfold numel, wf in *; rewrite Hwf, Hs; simpl; lia).
  rewrite Hnum, Nat.mul_comm, Nat.Div0.mod_mul, Nat.div_mul by lia.
  reflexivity.
Qed.

Lemma map_indexed_length (f : nat -> R -> R) (l : list R) :
  length (map_indexed f l) = length l.
Proof.
  unfold map_indexed. rewrite zip_with_length; now rewrite length_seq.
Qed.

End ConvBlock.

Section ProjectionHead.
Import Tensor Layers Model.

Lemma ReLU_shape (x : tensor R) : shape (ReLU x) = shape x.
Proof. reflexivity. Qed.

Lemma ReLU_wf (x : tensor R) : wf x -> wf (ReLU x).
Proof. unfold wf, ReLU, tmap. simpl. now rewrite length_map. Qed.

Lemma BatchNorm2d_eval_ok (bn : BatchNorm) (x : tensor R) (n c h w : nat) :
  shape x = [n; c; h; w] -> num_features bn = c -> wf x ->
  exists y, BatchNorm2d_eval bn x = Some y /\ shape y = [n; c; h; w] /\ wf y.
Proof.
  intros Hs Hc Hwf. unfold BatchNorm2d_eval. rewrite Hs, Hc, Nat.eqb_refl.
  eexists; split; [reflexivity|]. split; [reflexivity|].
  unfold wf in *. simpl. now rewrite map_indexed_length, Hwf, Hs.
Qed.

Lemma BatchNorm1d_eval_ok (bn : BatchNorm) (x : tensor R) (n c : nat) :
  shape x = [n; c] -> num_features bn = c -> wf x ->
  exists y, BatchNorm1d_eval bn x = Some y /\ shape y = [n; c] /\ wf y.
Proof.
  intros Hs Hc Hwf. unfold BatchNorm1d_eval. rewrite Hs, Hc, Nat.eqb_refl.
  eexists; split; [reflexivity|]. split; [reflexivity|].
  unfold wf in *. simpl. now rewrite map_indexed_length, Hwf, Hs.
Qed.

Lemma Linear_call_ok (l : Linear) (x : tensor R) (n : nat) :
  shape x = [n; in_features l] ->
  exists y, Linear_call l x = Some y /\ shape y = [n; out_features l] /\ wf y.
Proof.
  intros Hs. unfold Linear_call. rewrite Hs, Nat.eqb_refl.
  eexists; split; [reflexivity|]. split; [reflexivity|].
  unfold wf. simpl. rewrite gen2_length. lia.
Qed.

(** The convolution stage and the projection on a batch of stacked
    images. *)
Lemma conv_block_ok (n_e n_r h w c k : nat) (pe pf pp : R) (P : Params)
    (m : DSConvE) (x : tensor R) (n : nat) :
  DSConvE_init n_e n_r h w c k pe pf pp P = Some m ->
  (1 <= c)%nat ->
  (1 <= k)%nat -> (k <= 2 * w)%nat -> (k <= h)%nat -> (1 <= n)%nat ->
  shape x = [n; 1%nat; (2 * w)%nat; h] -> wf x ->
  (padding (depthwise (conv m)) = 0%nat /\
   kernel_size (depthwise (conv m)) = k /\
   groups (depthwise (conv m)) = in_channels (depthwise (conv m)) /\
   kernel_size (pointwise (conv m)) = 1%nat /\
   out_channels (pointwise (conv m)) = c) /\
  (exists y, DSConv2d_forward (conv m) x = Some y /\
     shape y = [n; c; (2 * w - k + 1)%nat; (h - k + 1)%nat] /\ wf y /\
     (forall b o i j, (b < n)%nat -> (o < c)%nat ->
        (i < 2 * w - k + 1)%nat -> (j < h - k + 1)%nat ->
        get 0 y [b; o; i; j]
        = get 0 (conv_weight (pointwise (conv m))) [o; 0; 0; 0]%nat *
          sum_upto k (fun di => sum_upto k (fun dj =>
            get 0 (conv_weight (depthwise (conv m))) [0; 0; di; dj]%nat *
            get 0 x [b; 0%nat; (i + di)%nat; (j + dj)%nat]))) /\
     exists f, Flatten_forward y = Some f /\
       shape f = [n; (c * (2 * w - k + 1) * (h - k + 1))%nat] /\
       data f = data y) /\
  in_features (fc m) = (c * (2 * w - k + 1) * (h - k + 1))%nat /\
  out_features (fc m) = (h * w)%nat /\
  exists z, conv_e m x = Some z /\ shape z = [n; (h * w)%nat] /\ wf z.
Proof.
  intros Hinit Hc1 Hk Hkw Hkh Hn Hs Hwf.
  destruct (DSConvE_init_inv _ _ _ _ _ _ _ _ _ _ _ Hinit)
    as (_ & _ & _ & _ & Hconv & _ & Hfc & Hbn2 & Hbn1).
  rewrite DSConv2d_new_model in Hconv. inversion Hconv as [Hc]. clear Hconv.
  destruct (DSConv2d_forward_model c k (depthwise_init P) (pointwise_init P)
              x n (2 * w) h Hc1 Hk Hkw Hkh Hs) as (y & Hy & Hsy & Hwy & Hval).
  assert (Hin : in_features (fc m) = (c * (2 * w - k + 1) * (h - k + 1))%nat)
    by (rewrite Hfc; simpl; now apply flattened_size_nat).
  assert (Hout : out_features (fc m) = (h * w)%nat) by (now rewrite Hfc).
  split; [simpl; repeat split; reflexivity|].
  split.
  { exists y. split; [exact Hy|]. split; [exact Hsy|]. split; [exact Hwy|].
    split; [exact Hval|].
    rewrite (Flatten_forward_ok y n c _ _ Hn Hsy Hwy).
    eexists; split; [reflexivity|]. split; reflexivity. }
  split; [exact Hin|]. split; [exact Hout|].
  unfold conv_e, Dropout_eval. rewrite <- Hc, Hy. cbn [bind].
  destruct (BatchNorm2d_eval_ok (bn2d m) (ReLU y) n c _ _ Hsy Hbn2 (ReLU_wf y Hwy))
    as (x3 & Hx3 & Hs3 & Hw3).
  rewrite Hx3. cbn [bind].
  rewrite (Flatten_forward_ok x3 n c _ _ Hn Hs3 Hw3). cbn [bind].
  destruct (Linear_call_ok (fc m)
              (mkTensor [n; (c * (2 * w - k + 1) * (h - k + 1))%nat] (data x3)) n)
    as (x6 & Hx6 & Hs6 & Hw6); [simpl; now rewrite Hin|].
  rewrite Hx6. cbn [bind]. rewrite Hout in Hs6.
  destruct (BatchNorm1d_eval_ok (bn1d m) (ReLU x6) n (h * w) Hs6 Hbn1 (ReLU_wf x6 Hw6))
    as (x8 & Hx8 & Hs8 & Hw8).
  rewrite Hx8. cbn [bind]. eexists; split; [reflexivity|]. split; assumption.
Qed.

(** The flattened feature map enters the linear layer, whatever the layers
    between the convolution and [Flatten] (which keep the shape) return. *)
Lemma Flatten_Linear_ok (n_e n_r h w c k : nat) (pe pf pp : R) (P : Params)
    (m : DSConvE) (v : tensor R) (n : nat) :
  DSConvE_init n_e n_r h w c k pe pf pp P = Some m ->
  (k <= 2 * w)%nat -> (k <= h)%nat -> (1 <= n)%nat ->
  shape v = [n; c; (2 * w - k + 1)%nat; (h - k + 1)%nat] -> wf v ->
  exists f z, Flatten_forward v = Some f /\
    shape f = [n; (c * (2 * w - k + 1) * (h - k + 1))%nat] /\
    data f = data v /\
    Linear_call (fc m) f = Some z /\ shape z = [n; (h * w)%nat] /\ wf z.
Proof.
  intros Hinit Hkw Hkh Hn Hs Hwf.
  destruct (DSConvE_init_inv _ _ _ _ _ _ _ _ _ _ _ Hinit)
    as (_ & _ & _ & _ & _ & _ & Hfc & _ & _).
  assert (Hin : in_features (fc m) = (c * (2 * w - k + 1) * (h - k + 1))%nat)
    by (rewrite Hfc; simpl; now apply flattened_size_nat).
  assert (Hout : out_features (fc m) = (h * w)%nat) by (now rewrite Hfc).
  rewrite (Flatten_forward_ok v n c _ _ Hn Hs Hwf).
  destruct (Linear_call_ok (fc m)
              (mkTensor [n; (c * (2 * w - k + 1) * (h - k + 1))%nat] (data v)) n)
    as (z & Hz & Hsz & Hwz); [simpl; now rewrite Hin|].
  exists (mkTensor [n; (c * (2 * w - k + 1) * (h - k + 1))%nat] (data v)), z.
  rewrite Hout in Hsz. repeat split; assumption.
Qed.

(** C8: in a model built by [__init__] with [C >= 1] output channels and
    [1 <= k <= min(2W, H)], the convolution stage is a depthwise
    convolution without padding (one [k * k] kernel on the one input
    channel) followed by a pointwise [1 * 1] convolution to [C] channels.
    On a batch of [n >= 1] images of shape [(1, 2W, H)] its feature map has
    shape [(n, C, 2W-k+1, H-k+1)] and the stated elements; flattened it has
    [C*(2W-k+1)*(H-k+1)] values per image, the number of input features of
    the linear layer, and the linear layer maps every flattened tensor of
    that shape to [H*W] features per image. *)
Theorem dsconv_feature_map (n_e n_r h w c k : nat) (pe pf pp : R) (P : Params)
    (m : DSConvE) (x : tensor R) (n : nat) :
  DSConvE_init n_e n_r h w c k pe pf pp P = Some m ->
  (1 <= c)%nat ->
  (1 <= k)%nat -> (k <= 2 * w)%nat -> (k <= h)%nat -> (1 <= n)%nat ->
  shape x = [n; 1%nat; (2 * w)%nat; h] -> wf x ->
  (padding (depthwise (conv m)) = 0%nat /\
   kernel_size (depthwise (conv m)) = k /\
   groups (depthwise (conv m)) = in_channels (depthwise (conv m)) /\
   kernel_size (pointwise (conv m)) = 1%nat /\
   out_channels (pointwise (conv m)) = c) /\
  (exists y, DSConv2d_forward (conv m) x = Some y /\
     shape y = [n; c; (2 * w - k + 1)%nat; (h - k + 1)%nat] /\ wf y /\
     (forall b o i j, (b < n)%nat -> (o < c)%nat ->
        (i < 2 * w - k + 1)%nat -> (j < h - k + 1)%nat ->
        get 0 y [b; o; i; j]
        = get 0 (conv_weight (pointwise (conv m))) [o; 0; 0; 0]%nat *
          sum_upto k (fun di => sum_upto k (fun dj =>
            get 0 (conv_weight (depthwise (conv m))) [0; 0; di; dj]%nat *
            get 0 x [b; 0%nat; (i + di)%nat; (j + dj)%nat]))) /\
     exists f, Flatten_forward y = Some f /\
       shape f = [n; (c * (2 * w - k + 1) * (h - k + 1))%nat] /\
       data f = data y) /\
  in_features (fc m) = (c * (2 * w - k + 1) * (h - k + 1))%nat /\
  out_features (fc m) = (h * w)%nat /\
  (forall v, shape v = [n; c; (2 * w - k + 1)%nat; (h - k + 1)%nat] -> wf v ->
     exists f z, Flatten_forward v = Some f /\
       shape f = [n; (c * (2 * w - k + 1) * (h - k + 1))%nat] /\
       data f = data v /\
       Linear_call (fc m) f = Some z /\ shape z = [n; (h * w)%nat] /\ wf z).
Proof.
  intros Hinit Hc Hk Hkw Hkh Hn Hs Hwf.
  destruct (conv_block_ok _ _ _ _ _ _ _ _ _ _ _ _ _ Hinit Hc Hk Hkw Hkh Hn Hs Hwf)
    as (Hcfg & Hy & Hin & Hout & _).
  split; [exact Hcfg|]. split; [exact Hy|]. split; [exact Hin|].
  split; [exact Hout|].
  intros v Hsv Hwv. exact (Flatten_Linear_ok _ _ _ _ _ _ _ _ _ _ _ _ _ Hinit Hkw Hkh Hn Hsv Hwv).
Qed.

End ProjectionHead.

(** ** The smoothed targets *)

Section Targets.
Import Tensor Train.

Lemma set_nth_length {A : Type} (k : nat) (v : A) (l : list A) :
  length (set_nth k v l) = length l.
Proof.
  revert k; induction l as [|x l IH]; intros [|k]; simpl; auto.
Qed.

Lemma set_nth_nth {A : Type} (k p : nat) (v d : A) (l : list A) :
  (p < length l)%nat ->
  nth p (set_nth k v l) d = if (p =? k)%nat then v else nth p l d.
Proof.
  revert k p; induction l as [|x l IH]; intros k p Hp; simpl in Hp; [lia|].
  destruct k as [|k], p as [|p]; simpl; try reflexivity.
  apply IH. lia.
Qed.

Lemma scatter_writes_ok (n m : nat) (value : Z) (idxs : list Z) :
  Forall (in_range n) idxs ->
  forall pos y, exists d,
    scatter_writes n m pos idxs value y = Some d /\ length d = length y /\
    forall p dflt, (p < length y)%nat ->
      nth p d dflt = if written n m pos idxs p then value else nth p y dflt.
Proof.
  induction 1 as [|ix idxs Hix _ IH]; intros pos y; simpl.
  - exists y. repeat split; reflexivity.
  - rewrite (proj2 (in_range_test n ix) Hix).
    destruct (IH (S pos) (set_nth ((pos / m) * n + Z.to_nat ix) value y))
      as (d & Hd & Hl & Hn).
    exists d. split; [exact Hd|]. rewrite set_nth_length in Hl. split; [exact Hl|].
    intros p dflt Hp. rewrite Hn by (now rewrite set_nth_length).
    rewrite set_nth_nth by assumption.
    destruct (written n m (S pos) idxs p), (p =? pos / m * n + Z.to_nat ix)%nat;
      reflexivity.
Qed.

Lemma written_spec (n m : nat) (idxs : list Z) (pos p : nat) :
  written n m pos idxs p = true <->
  exists q, (q < length idxs)%nat /\
            p = (((pos + q) / m) * n + Z.to_nat (nth q idxs 0%Z))%nat.
Proof.
  revert pos; induction idxs as [|ix idxs IH]; intros pos; simpl.
  - split; [discriminate | intros (q & Hq & _); lia].
  - rewrite orb_true_iff, Nat.eqb_eq, IH. split.
    + intros [-> | (q & Hq & ->)].
      * exists 0%nat. rewrite Nat.add_0_r. split; [lia | reflexivity].
      * exists (S q). split; [lia|]. now rewrite Nat.add_succ_r.
    + intros ([|q] & Hq & ->).
      * left. now rewrite Nat.add_0_r.
      * right. exists q. split; [lia|]. now rewrite Nat.add_succ_r.
Qed.

Lemma written_spec0 (n m : nat) (idxs : list Z) (p : nat) :
  written n m 0 idxs p = true <->
  exists q, (q < length idxs)%nat /\
            p = ((q / m) * n + Z.to_nat (nth q idxs 0%Z))%nat.
Proof. apply written_spec. Qed.

(** The positions written in row [i] are the columns of its true objects. *)
Lemma written_objects (n m b : nat) (idxs : list Z) (i j : nat) :
  Forall (in_range n) idxs -> length idxs = (b * m)%nat ->
  (i < b)%nat -> (j < n)%nat ->
  written n m 0 idxs (i * n + j) = true <-> In (Z.of_nat j) (block m i idxs).
Proof.
  intros Hr Hl Hi Hj. rewrite written_spec0.
  assert (Hm : forall q, (q < length idxs)%nat -> (0 < m)%nat) by (intros; nia).
  assert (Hbl : length (block m i idxs) = m) by (apply block_length; nia).
  split.
  - intros (q & Hq & Heq).
    pose proof (Hm q Hq) as Hmpos.
    assert (Hix : in_range n (nth q idxs 0%Z))
      by (rewrite Forall_forall in Hr; apply Hr, nth_In, Hq).
    unfold in_range in Hix.
    assert (Hlt : (Z.to_nat (nth q idxs 0%Z) < n)%nat) by lia.
    assert (Hdiv : (q / m)%nat = i).
    { revert Heq. generalize (q / m)%nat. generalize dependent (Z.to_nat (nth q idxs 0%Z)).
      intros ix Hlt a Heq.
      destruct (lt_eq_lt_dec a i) as [[Hai | Hai] | Hai]; [|assumption|].
      - assert ((a + 1) * n <= i * n)%nat by (apply Nat.mul_le_mono_r; lia). lia.
      - assert ((i + 1) * n <= a * n)%nat by (apply Nat.mul_le_mono_r; lia). lia. }
    assert (Hto : Z.to_nat (nth q idxs 0%Z) = j) by (rewrite Hdiv in Heq; lia).
    pose proof (Nat.div_mod_eq q m) as Hdm.
    pose proof (Nat.mod_upper_bound q m ltac:(lia)) as Hmod.
    replace (Z.of_nat j) with (nth (q mod m) (block m i idxs) 0%Z).
    + apply nth_In. lia.
    + rewrite block_nth by assumption.
      replace (i * m + q mod m)%nat with q by (rewrite <- Hdiv; lia). lia.
  - intros Hin. apply (In_nth _ _ 0%Z) in Hin as (t & Ht & Hnth).
    rewrite Hbl in Ht. rewrite block_nth in Hnth by assumption.
    exists (i * m + t)%nat. split; [nia|].
    rewrite Hnth, Nat2Z.id, Nat.div_add_l, (Nat.div_small t m) by lia. lia.
Qed.

Lemma vsum_indicator (a c : R) (p : nat -> bool) (l : list nat) :
  vsum (map (fun j => a * (if p j then 1 else 0) + c) l)
  = a * INR (length (filter p l)) + INR (length l) * c.
Proof.
  induction l as [|j l IH]; [simpl; lra|].
  cbn [map vsum fold_right filter length]. fold (vsum (map (fun j => a * (if p j then 1 else 0) + c) l)).
  rewrite IH. destruct (p j); cbn [length]; rewrite !S_INR; lra.
Qed.

(** The columns below [n] that occur in a row of indices in range are as
    many as its distinct entries. *)
Lemma distinct_count (n : nat) (row : list Z) :
  Forall (in_range n) row ->
  length (filter (fun j => if in_dec Z.eq_dec (Z.of_nat j) row then true else false)
            (seq 0 n))
  = length (nodup Z.eq_dec row).
Proof.
  intros Hr.
  rewrite <- (length_map Z.of_nat). apply Permutation_length, NoDup_Permutation.
  - apply Finite.Injective_map_NoDup; [intros x y; apply Nat2Z.inj|].
    apply NoDup_filter, seq_NoDup.
  - apply NoDup_nodup.
  - intros z. rewrite in_map_iff, nodup_In. split.
    + intros (j & <- & Hj). apply filter_In in Hj as [_ Hj].
      destruct (in_dec Z.eq_dec (Z.of_nat j) row); [assumption | discriminate].
    + intros Hz. rewrite Forall_forall in Hr. pose proof (Hr z Hz) as Hz'.
      unfold in_range in Hz'. exists (Z.to_nat z). split; [lia|].
      apply filter_In. split; [apply in_seq; lia|].
      rewrite Z2Nat.id by lia.
      destruct (in_dec Z.eq_dec z row); [reflexivity | contradiction].
Qed.

End Targets.

Section SmoothedTargets.
Import Tensor Train.

Lemma Forall_block {A : Type} (Q : A -> Prop) (k i : nat) (l : list A) :
  Forall Q l -> Forall Q (block k i l).
Proof.
  intros H. unfold block.
  rewrite <- (firstn_skipn (i * k) l) in H. apply Forall_app in H as [_ H].
  rewrite <- (firstn_skipn k (skipn (i * k) l)) in H.
  now apply Forall_app in H as [H _].
Qed.

(** One element of [y_smooth], from the multi-hot storage [d]. *)
Lemma smooth_nth (eps c : R) (d : list Z) (p : nat) :
  (p < length d)%nat ->
  nth p (map (fun x => x + c) (map (fun x => (1 - eps) * x) (map IZR d))) 0
  = (1 - eps) * IZR (nth p d 0%Z) + c.
Proof.
  intros Hp.
  rewrite (map_nth_in _ _ 0) by (rewrite !length_map; lia).
  rewrite (map_nth_in _ _ 0) by (rewrite !length_map; lia).
  now rewrite (map_nth_in _ _ 0%Z) by lia.
Qed.

(** The target construction of one batch, element by element. *)
Lemma build_targets_elements (batch_size n : nat) (eps : R) (garbage : nat -> Z)
    (y_multihot os : tensor Z) (s_size m : nat) :
  shape y_multihot = [batch_size; n] -> wf y_multihot ->
  shape os = [s_size; m] -> wf os ->
  Forall (in_range n) (data os) -> (0 < n)%nat ->
  exists y2 y_smooth,
    build_targets batch_size n eps garbage y_multihot s_size os
    = Some (y2, y_smooth) /\
    shape y_smooth = [s_size; n] /\ wf y_smooth /\
    forall i j, (i < s_size)%nat -> (j < n)%nat ->
      get 0 y_smooth [i; j]
      = (1 - eps) * (if in_dec Z.eq_dec (Z.of_nat j) (objects os i) then 1 else 0)
        + eps / INR n.
Proof.
  intros Hsy Hwy Hso Hwo Hr Hn. unfold build_targets.
  set (y0 := if negb (s_size =? batch_size)%nat
             then LongTensor_new s_size n garbage else y_multihot).
  assert (Hs0 : shape y0 = [s_size; n]).
  { subst y0. destruct (Nat.eqb_spec s_size batch_size) as [-> | _]; simpl; auto. }
  assert (Hl0 : length (data y0) = (s_size * n)%nat).
  { subst y0. destruct (Nat.eqb_spec s_size batch_size) as [-> | _]; simpl.
    - unfold wf in Hwy. rewrite Hwy, Hsy. simpl. lia.
    - rewrite length_map, length_seq. lia. }
  assert (Hlo : length (data os) = (s_size * m)%nat)
    by (unfold wf in Hwo; rewrite Hwo, Hso; simpl; lia).
  unfold scatter_1. simpl shape. rewrite Hs0, Hso, Nat.leb_refl.
  destruct (scatter_writes_ok n m 1%Z (data os) Hr 0%nat (data (zero_ y0)))
    as (d & Hd & Hld & Hnd).
  rewrite Hd. cbn [bind]. destruct (Nat.eqb_spec n 0) as [E | _]; [lia|].
  assert (Hlen : length d = (s_size * n)%nat)
    by (rewrite Hld; simpl; now rewrite length_map).
  eexists; eexists; split; [reflexivity|]. split; [reflexivity|]. split.
  - unfold wf. simpl. rewrite !length_map, Hlen. lia.
  - intros i j Hi Hj. unfold get. simpl shape. rewrite offset2. simpl data.
    assert (Hp : (i * n + j < length d)%nat) by nia.
    rewrite smooth_nth by assumption. f_equal. f_equal.
    rewrite Hnd by (rewrite <- Hld; assumption).
    unfold objects. rewrite Hso. simpl nth.
    pose proof (written_objects n m s_size (data os) i j Hr Hlo Hi Hj) as Hw.
    destruct (written n m 0 (data os) (i * n + j)) eqn:Ew;
      destruct (in_dec Z.eq_dec (Z.of_nat j) (block m i (data os))) as [Hin | Hin];
      try reflexivity.
    + exfalso. apply Hin, Hw. reflexivity.
    + apply Hw in Hin. discriminate.
    + simpl. rewrite (map_nth_in _ _ 0%Z) by (rewrite Hl0; nia). reflexivity.
Qed.

(** C3: for a batch whose true-object indices are all below
    [num_entities], the target of batch element [i] is exactly
    [(1-eps) + eps/num_entities] at the index of every true object,
    exactly [eps/num_entities] at every other index, and its sum is
    [k*(1-eps) + eps], where [k] is the number of distinct true objects of
    the element. *)
Theorem smoothed_targets_values_and_sum (batch_size n : nat) (eps : R)
    (garbage : nat -> Z) (y_multihot os : tensor Z) (s_size m : nat) :
  shape y_multihot = [batch_size; n] -> wf y_multihot ->
  shape os = [s_size; m] -> wf os ->
  Forall (in_range n) (data os) -> (0 < n)%nat ->
  exists y2 y_smooth,
    build_targets batch_size n eps garbage y_multihot s_size os
    = Some (y2, y_smooth) /\
    shape y_smooth = [s_size; n] /\ wf y_smooth /\
    forall i, (i < s_size)%nat ->
      (forall j, (j < n)%nat -> In (Z.of_nat j) (objects os i) ->
         get 0 y_smooth [i; j] = (1 - eps) + eps / INR n) /\
      (forall j, (j < n)%nat -> ~ In (Z.of_nat j) (objects os i) ->
         get 0 y_smooth [i; j] = eps / INR n) /\
      sum_upto n (fun j => get 0 y_smooth [i; j])
      = INR (length (nodup Z.eq_dec (objects os i))) * (1 - eps) + eps.
Proof.
  intros Hsy Hwy Hso Hwo Hr Hn.
  destruct (build_targets_elements batch_size n eps garbage y_multihot os s_size m
              Hsy Hwy Hso Hwo Hr Hn) as (y2 & ys & Hb & Hs & Hw & Hel).
  exists y2, ys. split; [exact Hb|]. split; [exact Hs|]. split; [exact Hw|].
  intros i Hi. split; [|split].
  - intros j Hj Hin. rewrite Hel by assumption.
    destruct (in_dec Z.eq_dec (Z.of_nat j) (objects os i)); [lra | contradiction].
  - intros j Hj Hin. rewrite Hel by assumption.
    destruct (in_dec Z.eq_dec (Z.of_nat j) (objects os i)); [contradiction | lra].
  - rewrite (sum_upto_ext n _
               (fun j => (1 - eps) *
                  (if (if in_dec Z.eq_dec (Z.of_nat j) (objects os i)
                       then true else false) then 1 else 0)
                  + eps / INR n)).
    + unfold sum_upto. rewrite vsum_indicator, length_seq, distinct_count.
      * assert (Hn0 : INR n <> 0) by (apply not_0_INR; lia). field. exact Hn0.
      * unfold objects. now apply Forall_block.
    + intros j Hj. rewrite Hel by assumption.
      destruct (in_dec Z.eq_dec (Z.of_nat j) (objects os i)); reflexivity.
Qed.

End SmoothedTargets.

(** ** The whole forward pass returns a score per entity *)

Section ForwardTotal.
Import Tensor Layers Model.

Lemma transpose_ok (a : tensor R) (n k : nat) :
  shape a = [n; k] ->
  exists t, transpose a = Some t /\ shape t = [k; n] /\ wf t.
Proof.
  intros Hs. unfold transpose. rewrite Hs.
  eexists; split; [reflexivity|]. split; [reflexivity|].
  unfold wf. simpl. rewrite gen2_length. lia.
Qed.

Lemma mm_ok (a b : tensor R) (n k p : nat) :
  shape a = [n; k] -> shape b = [k; p] ->
  exists t, mm a b = Some t /\ shape t = [n; p] /\ wf t.
Proof.
  intros Ha Hb. unfold mm. rewrite Ha, Hb, Nat.eqb_refl.
  eexists; split; [reflexivity|]. split; [reflexivity|].
  unfold wf. simpl. rewrite gen2_length. lia.
Qed.

(** For a valid model and a valid batch, [forward] returns a matrix of
    [batch * num_e] scores. *)
Lemma forward_total (n_e n_r h w c k : nat) (pe pf pp : R) (P : Params)
    (m : DSConvE) (s r : list Z) :
  DSConvE_init n_e n_r h w c k pe pf pp P = Some m ->
  (1 <= c)%nat ->
  (0 < w)%nat -> (1 <= k)%nat -> (k <= 2 * w)%nat -> (k <= h)%nat ->
  (1 <= length s)%nat -> length r = length s ->
  Forall (in_range n_e) s -> Forall (in_range n_r) r ->
  exists scores, forward m s r = Some scores /\
    shape scores = [length s; n_e] /\ wf scores.
Proof.
  intros Hinit Hc Hw Hk Hkw Hkh Hb Hlen Hs Hr.
  destruct (conv_input_ok n_e n_r h w c k pe pf pp P m s r)
    as (ci & Hci & Hsci & Hwci & _); try assumption; [lia|].
  destruct (conv_block_ok n_e n_r h w c k pe pf pp P m ci (length s))
    as (_ & _ & _ & _ & z & Hz & Hsz & Hwz); try assumption.
  destruct (DSConvE_init_inv _ _ _ _ _ _ _ _ _ _ _ Hinit)
    as (_ & _ & He & _).
  destruct (transpose_ok (weight (embed_e m)) n_e (h * w))
    as (wt & Hwt & Hswt & _); [now rewrite He|].
  destruct (mm_ok z wt (length s) (h * w) n_e Hsz Hswt) as (sc & Hsc & Hssc & Hwsc).
  exists sc. unfold forward. rewrite Hci. cbn [bind]. rewrite Hz. cbn [bind].
  rewrite Hwt. cbn [bind]. auto.
Qed.

End ForwardTotal.

(** ** The statements on a small model *)

Section SmallModel.
Import Tensor Layers Model Train Valid.

Lemma small_in_range_e : Forall (in_range 3) [2%Z].
Proof. constructor; [unfold in_range; lia | constructor]. Qed.

Lemma small_in_range_r : Forall (in_range 2) [1%Z].
Proof. constructor; [unfold in_range; lia | constructor]. Qed.

Lemma embedding_lookup_checked_witness :
  exists m,
    DSConvE_init 3 2 2 1 4 1 0.2 0.2 0.3 small_params = Some m /\
    (exists v, lookup (embed_e m) 2%Z = Some v /\ length v = 2%nat) /\
    lookup (embed_e m) 3%Z = None /\
    lookup (embed_e m) (-1)%Z = None /\
    forward m [3%Z] [0%Z] = None.
Proof.
  destruct (DSConvE_init_some 3 2 2 1 4 1 0.2 0.2 0.3 small_params) as [m Hm];
    [lra | lra | lra | cbv; discriminate |].
  exists m. split; [exact Hm|].
  destruct (embedding_lookup_checked 3 2 2 1 4 1 0.2 0.2 0.3 small_params m Hm)
    as (Hin & _ & Hout & _ & Hfw).
  split; [|split; [|split]].
  - destruct (Hin 2%Z) as (v & Hv & Hl & _); [unfold in_range; lia|].
    exists v. split; assumption.
  - apply Hout. unfold in_range. lia.
  - apply Hout. unfold in_range. lia.
  - apply Hfw. left. constructor. unfold in_range. lia.
Defined.

Lemma conv_input_shape_and_layout_witness :
  exists m,
    DSConvE_init 3 2 2 1 4 1 0.2 0.2 0.3 small_params = Some m /\
    exists ci, conv_input m [2%Z] [1%Z] = Some ci /\
      shape ci = [1; 1; 2; 2]%nat /\ wf ci /\
      get 0 ci [0; 0; 0; 1]%nat = get 0 (weight (embed_e m)) [2; 1]%nat /\
      get 0 ci [0; 0; 1; 0]%nat = get 0 (weight (embed_r m)) [1; 0]%nat.
Proof.
  destruct (DSConvE_init_some 3 2 2 1 4 1 0.2 0.2 0.3 small_params) as [m Hm];
    [lra | lra | lra | cbv; discriminate |].
  exists m. split; [exact Hm|].
  destruct (conv_input_shape_and_layout 3 2 2 1 4 1 0.2 0.2 0.3 small_params m
              [2%Z] [1%Z] Hm (Nat.lt_0_succ 1) (Nat.lt_0_succ 0)
              (Nat.le_refl 1) eq_refl small_in_range_e small_in_range_r)
    as (ci & Hci & Hs & Hw & Hel).
  exists ci. split; [exact Hci|]. split; [exact Hs|]. split; [exact Hw|]. split.
  - apply (Hel 0 0 1)%nat; simpl; lia.
  - apply (Hel 0 1 0)%nat; simpl; lia.
Defined.

Lemma dsconv_feature_map_witness :
  exists m,
    DSConvE_init 3 2 3 2 4 2 0.2 0.2 0.3 small_params = Some m /\
    (exists y,
       DSConv2d_forward (conv m) (init_tensor [1; 1; 4; 3]%nat INR) = Some y /\
       shape y = [1; 4; 3; 2]%nat /\ wf y /\
       exists f z, Flatten_forward y = Some f /\ shape f = [1; 24]%nat /\
         Linear_call (fc m) f = Some z /\ shape z = [1; 6]%nat) /\
    in_features (fc m) = 24%nat /\
    out_features (fc m) = 6%nat.
Proof.
  destruct (DSConvE_init_some 3 2 3 2 4 2 0.2 0.2 0.3 small_params) as [m Hm];
    [lra | lra | lra | cbv; discriminate |].
  exists m. split; [exact Hm|].
  destruct (dsconv_feature_map 3 2 3 2 4 2 0.2 0.2 0.3 small_params m
              (init_tensor [1; 1; 4; 3]%nat INR) 1 Hm
              ltac:(lia) ltac:(lia) ltac:(lia) ltac:(lia) ltac:(lia) eq_refl
              (init_tensor_wf _ _))
    as (_ & (y & Hy & Hsy & Hwy & _) & Hin & Hout & Hlin).
  split; [|split; [exact Hin | exact Hout]].
  exists y. split; [exact Hy|]. split; [exact Hsy|]. split; [exact Hwy|].
  destruct (Hlin y Hsy Hwy) as (f & z & Hf & Hsf & _ & Hz & Hsz & _).
  exists f, z. repeat split; assumption.
Defined.

Lemma smoothed_targets_values_and_sum_witness :
  let os := mkTensor [2; 2]%nat [0; 2; 1; 1]%Z in
  exists y2 y_smooth,
    build_targets 2 3 0.1 (fun _ => 7%Z) (LongTensor_new 2 3 (fun _ => 7%Z)) 2 os
    = Some (y2, y_smooth) /\
    shape y_smooth = [2; 3]%nat /\
    get 0 y_smooth [1; 1]%nat = (1 - 0.1) + 0.1 / INR 3 /\
    get 0 y_smooth [1; 0]%nat = 0.1 / INR 3 /\
    sum_upto 3 (fun j => get 0 y_smooth [1%nat; j])
    = INR (length (nodup Z.eq_dec (objects os 1))) * (1 - 0.1) + 0.1.
Proof.
  intros os.
  assert (Hr : Forall (in_range 3) (data os)).
  { repeat (constructor; [unfold in_range; simpl; lia|]). constructor. }
  destruct (smoothed_targets_values_and_sum 2 3 0.1 (fun _ => 7%Z)
              (LongTensor_new 2 3 (fun _ => 7%Z)) os 2 2
              eq_refl (init_tensor_wf _ _) eq_refl eq_refl Hr ltac:(lia))
    as (y2 & ys & Hb & Hs & _ & Hel).
  - exists y2, ys. split; [exact Hb|]. split; [exact Hs|].
    destruct (Hel 1%nat) as (Hone & Hzero & Hsum); [lia|].
    split; [|split; [|exact Hsum]].
    + apply Hone; [lia|]. simpl. now left.
    + apply Hzero; [lia|]. simpl. intros [H | [H | []]]; discriminate.
Defined.

End SmallModel.

(** ** The scoring function *)

Section Scoring.
Import Tensor Layers Model StableBCELoss.







End Scoring.

(** ** Saturation of the float sigmoid: tied scores and ranks *)

Section SigmoidTies.
Import Tensor Layers Model Valid.









End SigmoidTies.

(** ** The depthwise-separable convolution in general *)

Section SeparableConv.
Import Tensor Layers Model.

Lemma sum_upto_scale (n : nat) (a : R) (f : nat -> R) :
  sum_upto n (fun i => a * f i) = a * sum_upto n f.
Proof.
  unfold sum_upto, vsum. induction (seq 0 n) as [|i l IH]; simpl; [lra|].
  rewrite IH. lra.
Qed.

Lemma flat_map_ext_seq {A : Type} (f g : nat -> list A) (s n : nat) :
  (forall i, (s <= i < s + n)%nat -> f i = g i) ->
  flat_map f (seq s n) = flat_map g (seq s n).
Proof.
  revert s; induction n as [|n IH]; intros s H; simpl; [reflexivity|].
  rewrite H by lia. f_equal. apply IH. intros i Hi. apply H. lia.
Qed.

Lemma gen4_ext (n c h w : nat) (f g : nat -> nat -> nat -> nat -> R) :
  (forall b o i j, (b < n)%nat -> (o < c)%nat -> (i < h)%nat -> (j < w)%nat ->
     f b o i j = g b o i j) ->
  gen4 n c h w f = gen4 n c h w g.
Proof.
  intros H. unfold gen4.
  apply flat_map_ext_seq; intros b Hb.
  apply flat_map_ext_seq; intros o Ho.
  apply flat_map_ext_seq; intros i Hi.
  apply map_ext_in. intros j Hj. apply in_seq in Hj. apply H; lia.
Qed.

Lemma DSConv2d_new_general (cin cout k p : nat) (dw pw : nat -> R) :
  (0 < cin)%nat ->
  DSConv2d_new cin cout k p dw pw
  = Some (mkDSConv2d
            (mkConv2d cin cin k p cin (init_tensor [cin; 1; k; k]%nat dw))
            (mkConv2d cin cout 1 0 1 (init_tensor [cout; cin; 1; 1]%nat pw))).
Proof.
  intros Hc. unfold DSConv2d_new, Conv2d_new.
  destruct (Nat.eqb_spec cin 0); [lia|].
  rewrite (Nat.Div0.mod_same cin), (Nat.mod_1_r cin), (Nat.mod_1_r cout).
  rewrite (Nat.div_same cin), (Nat.div_1_r cin) by lia. reflexivity.
Qed.

(** One output element of a depthwise convolution: only the input channel
    of the same number contributes. *)
Lemma depthwise_at_general (cin k p : nat) (W : tensor R) (h w : nat)
    (x : tensor R) (b o i j : nat) :
  (0 < cin)%nat ->
  conv_at (mkConv2d cin cin k p cin W) h w x b o i j
  = sum_upto k (fun di => sum_upto k (fun dj =>
      get 0 W [o; 0%nat; di; dj] *
      get_padded p h w x b o (i + di)%nat (j + dj)%nat)).
Proof.
  intros Hc. unfold conv_at. simpl.
  rewrite (Nat.div_same cin) by lia. rewrite sum_upto_1, Nat.div_1_r.
  apply sum_upto_ext; intros di _. apply sum_upto_ext; intros dj _.
  do 2 f_equal. lia.
Qed.

(** One output element of a pointwise convolution: a weighted sum of the
    input channels at the same position. *)
Lemma pointwise_at_general (cin cout : nat) (W : tensor R) (h w : nat)
    (x : tensor R) (b o i j : nat) :
  (o < cout)%nat -> (i < h)%nat -> (j < w)%nat ->
  conv_at (mkConv2d cin cout 1 0 1 W) h w x b o i j
  = sum_upto cin (fun c => get 0 W [o; c; 0; 0]%nat * get 0 x [b; c; i; j]).
Proof.
  intros Ho Hi Hj. unfold conv_at. simpl kernel_size. simpl in_channels.
  simpl out_channels. simpl groups. simpl padding. simpl conv_weight.
  rewrite (Nat.div_1_r cin), (Nat.div_1_r cout), (Nat.div_small o cout) by assumption.
  apply sum_upto_ext; intros c _. rewrite !sum_upto_1.
  rewrite get_padded_0 by lia. simpl. now rewrite !Nat.add_0_r.
Qed.

(** The feature map of [DSConv2d], for any number of input channels and
    any padding. *)
Lemma DSConv2d_forward_general (cin cout k p : nat) (dw pw : nat -> R)
    (x : tensor R) (n h w : nat) :
  (0 < cin)%nat -> (1 <= cout)%nat ->
  (1 <= k)%nat -> (k <= h + 2 * p)%nat -> (k <= w + 2 * p)%nat ->
  shape x = [n; cin; h; w] ->
  DSConv2d_forward
    (mkDSConv2d
       (mkConv2d cin cin k p cin (init_tensor [cin; 1; k; k]%nat dw))
       (mkConv2d cin cout 1 0 1 (init_tensor [cout; cin; 1; 1]%nat pw))) x
  = Some (mkTensor [n; cout; (h + 2 * p - k + 1)%nat; (w + 2 * p - k + 1)%nat]
            (gen4 n cout (h + 2 * p - k + 1) (w + 2 * p - k + 1)
               (fun b o i j =>
                  sum_upto cin (fun c =>
                    get 0 (init_tensor [cout; cin; 1; 1]%nat pw) [o; c; 0; 0]%nat *
                    sum_upto k (fun di => sum_upto k (fun dj =>
                      get 0 (init_tensor [cin; 1; k; k]%nat dw) [c; 0%nat; di; dj] *
                      get_padded p h w x b c (i + di)%nat (j + dj)%nat)))))).
Proof.
  intros Hc Hco Hk Hh Hw Hs. unfold DSConv2d_forward. cbn [depthwise pointwise].
  rewrite (Conv2d_call_ok _ x n h w) by (cbn; assumption).
  cbn [bind kernel_size padding out_channels in_channels].
  set (ho := (h + 2 * p - k + 1)%nat). set (wo := (w + 2 * p - k + 1)%nat).
  set (mid := @mkTensor R [n; cin; ho; wo] _).
  rewrite (Conv2d_call_ok _ mid n ho wo) by (cbn; try reflexivity; lia).
  cbn [kernel_size padding out_channels in_channels].
  replace (ho + 2 * 0 - 1 + 1)%nat with ho by lia.
  replace (wo + 2 * 0 - 1 + 1)%nat with wo by lia.
  do 2 f_equal. apply gen4_ext. intros b o i j Hb Ho Hi Hj.
  rewrite pointwise_at_general by assumption.
  apply sum_upto_ext; intros c Hcc. f_equal.
  unfold get at 1. subst mid. cbn [shape data].
  rewrite offset4, gen4_nth by assumption.
  now apply depthwise_at_general.
Qed.

End SeparableConv.

Section SeparableConvTheorems.
Import Tensor Layers Model.

Lemma DSConv2d_new_inv (cin cout k p : nat) (dw pw : nat -> R) (ds : DSConv2d) :
  DSConv2d_new cin cout k p dw pw = Some ds ->
  (0 < cin)%nat /\
  ds = mkDSConv2d
         (mkConv2d cin cin k p cin (init_tensor [cin; 1; k; k]%nat dw))
         (mkConv2d cin cout 1 0 1 (init_tensor [cout; cin; 1; 1]%nat pw)).
Proof.
  intros H. destruct cin as [|cin]; [discriminate|].
  rewrite DSConv2d_new_general in H by lia. inversion H. split; [lia | reflexivity].
Qed.

Lemma Conv2d_call_fails (cv : Conv2d) (x : tensor R) (n c h w : nat) :
  shape x = [n; c; h; w] ->
  c <> in_channels cv \/ (h + 2 * padding cv < kernel_size cv)%nat \/
  (w + 2 * padding cv < kernel_size cv)%nat ->
  Conv2d_call cv x = None.
Proof.
  intros Hs H. unfold Conv2d_call. rewrite Hs. unfold conv2d_batched.
  destruct (Nat.eqb_spec c (in_channels cv)); cbn [negb]; [|reflexivity].
  destruct (out_channels cv =? 0)%nat; [reflexivity|].
  destruct (Nat.eqb_spec (kernel_size cv) 0); [reflexivity|].
  destruct (Nat.ltb_spec (h + 2 * padding cv) (kernel_size cv)); [reflexivity|].
  destruct (Nat.ltb_spec (w + 2 * padding cv) (kernel_size cv)); [reflexivity|].
  lia.
Qed.

(** A convolution without output channels fails on every input. *)
Lemma conv2d_batched_no_output (cv : Conv2d) (x : tensor R) (n c h w : nat) :
  out_channels cv = 0%nat -> conv2d_batched cv x n c h w = None.
Proof.
  intros H. unfold conv2d_batched. rewrite H.
  destruct (negb (c =? in_channels cv)%nat); reflexivity.
Qed.

Lemma Conv2d_call_no_output (cv : Conv2d) (x : tensor R) :
  out_channels cv = 0%nat -> Conv2d_call cv x = None.
Proof.
  intros H. unfold Conv2d_call.
  destruct (shape x) as [|n [|c [|h [|w [|? ?]]]]]; try reflexivity.
  - now rewrite conv2d_batched_no_output.
  - now apply conv2d_batched_no_output.
Qed.



(** X4: with the default arguments of its constructor ([kernel_size = 3],
    [padding = 1]) a [DSConv2d] with at least one output channel keeps the
    spatial size: an input of shape [(n, in_channels, h, w)] with
    [h, w >= 1] gives an output of shape [(n, out_channels, h, w)]. *)
Theorem DSConv2d_default_keeps_size (cin cout : nat) (dw pw : nat -> R)
    (ds : DSConv2d) (x : tensor R) (n h w : nat) :
  DSConv2d_default cin cout dw pw = Some ds ->
  (1 <= cout)%nat ->
  (1 <= h)%nat -> (1 <= w)%nat -> shape x = [n; cin; h; w] ->
  exists y, DSConv2d_forward ds x = Some y /\ shape y = [n; cout; h; w] /\ wf y.
Proof.
  intros Hnew Hco Hh Hw Hs. unfold DSConv2d_default in Hnew.
  apply DSConv2d_new_inv in Hnew as [Hc ->].
  rewrite (DSConv2d_forward_general cin cout 3 1 dw pw x n h w) by (try assumption; lia).
  replace (h + 2 * 1 - 3 + 1)%nat with h by lia.
  replace (w + 2 * 1 - 3 + 1)%nat with w by lia.
  eexists; split; [reflexivity|]. split; [reflexivity|].
  unfold wf. simpl. rewrite gen4_length. lia.
Qed.

Lemma DSConv2d_default_keeps_size_witness :
  exists ds,
    DSConv2d_default 2 3 INR INR = Some ds /\
    exists y, DSConv2d_forward ds (init_tensor [1; 2; 4; 5]%nat INR) = Some y /\
      shape y = [1; 3; 4; 5]%nat /\ wf y.
Proof.
  eexists. split; [reflexivity|].
  apply (DSConv2d_default_keeps_size 2 3 INR INR _
           (init_tensor [1; 2; 4; 5]%nat INR) 1 4 5 eq_refl); try reflexivity; lia.
Defined.

(** The dense convolution with the factored kernel, element by element. *)
Lemma dense_at (cin cout k p : nat) (dw pw : nat -> R) (h w : nat)
    (x : tensor R) (b o i j : nat) :
  (o < cout)%nat ->
  conv_at (dense_of (mkDSConv2d
       (mkConv2d cin cin k p cin (init_tensor [cin; 1; k; k]%nat dw))
       (mkConv2d cin cout 1 0 1 (init_tensor [cout; cin; 1; 1]%nat pw)))) h w x b o i j
  = sum_upto cin (fun c =>
      get 0 (init_tensor [cout; cin; 1; 1]%nat pw) [o; c; 0; 0]%nat *
      sum_upto k (fun di => sum_upto k (fun dj =>
        get 0 (init_tensor [cin; 1; k; k]%nat dw) [c; 0%nat; di; dj] *
        get_padded p h w x b c (i + di)%nat (j + dj)%nat))).
Proof.
  intros Ho. unfold conv_at, dense_of.
  cbn [depthwise pointwise kernel_size in_channels out_channels groups padding conv_weight].
  rewrite (Nat.div_1_r cin), (Nat.div_1_r cout), (Nat.div_small o cout) by assumption.
  apply sum_upto_ext; intros c Hc. rewrite <- sum_upto_scale.
  apply sum_upto_ext; intros di Hdi. rewrite <- sum_upto_scale.
  apply sum_upto_ext; intros dj Hdj.
  unfold get at 1. cbn [shape data]. rewrite offset4, gen4_nth by assumption.
  simpl "+". rewrite Rmult_assoc. reflexivity.
Qed.

(** On a batch, the two convolutions in a row are the dense one. *)
Lemma DSConv2d_batched_dense (cin cout k p : nat) (dw pw : nat -> R)
    (x : tensor R) (n c h w : nat) :
  (0 < cin)%nat -> shape x = [n; c; h; w] ->
  let ds := mkDSConv2d
       (mkConv2d cin cin k p cin (init_tensor [cin; 1; k; k]%nat dw))
       (mkConv2d cin cout 1 0 1 (init_tensor [cout; cin; 1; 1]%nat pw)) in
  bind (conv2d_batched (depthwise ds) x n c h w) (Conv2d_call (pointwise ds))
  = conv2d_batched (dense_of ds) x n c h w.
Proof.
  intros Hc Hs ds.
  assert (Hdw : Conv2d_call (depthwise ds) x = conv2d_batched (depthwise ds) x n c h w)
    by (unfold Conv2d_call; now rewrite Hs).
  assert (Hde : Conv2d_call (dense_of ds) x = conv2d_batched (dense_of ds) x n c h w)
    by (unfold Conv2d_call; now rewrite Hs).
  rewrite <- Hdw, <- Hde.
  destruct (Nat.eq_dec cout 0) as [Hco | Hco].
  { rewrite (Conv2d_call_no_output (dense_of ds)) by exact Hco.
    destruct (Conv2d_call (depthwise ds) x); [|reflexivity]. cbn [bind].
    now apply Conv2d_call_no_output. }
  destruct (Nat.eq_dec c cin) as [-> | Hne].
  2:{ rewrite !(Conv2d_call_fails _ x n c h w Hs) by (left; exact Hne). reflexivity. }
  destruct (Nat.eq_dec k 0) as [-> | Hk0].
  { rewrite Hdw, Hde. unfold conv2d_batched. cbn. rewrite Nat.eqb_refl. cbn.
    destruct (cin =? 0)%nat, (cout =? 0)%nat; reflexivity. }
  destruct (le_lt_dec k (h + 2 * p)) as [Hh | Hh].
  2:{ rewrite !(Conv2d_call_fails _ x n cin h w Hs) by (right; left; exact Hh).
      reflexivity. }
  destruct (le_lt_dec k (w + 2 * p)) as [Hw | Hw].
  2:{ rewrite !(Conv2d_call_fails _ x n cin h w Hs) by (right; right; exact Hw).
      reflexivity. }
  change (bind (Conv2d_call (depthwise ds) x) (Conv2d_call (pointwise ds)))
    with (DSConv2d_forward ds x).
  subst ds.
  rewrite (DSConv2d_forward_general cin cout k p dw pw x n h w) by (try assumption; lia).
  rewrite (Conv2d_call_ok _ x n h w) by (cbn; try assumption; lia).
  cbn [dense_of depthwise pointwise kernel_size in_channels out_channels padding].
  do 2 f_equal. apply gen4_ext. intros b o i j Hb Ho Hi Hj.
  symmetry. now apply (dense_at cin cout k p dw pw h w x b o i j).
Qed.

Lemma conv2d_batched_shape (cv : Conv2d) (x y : tensor R) (n c h w : nat) :
  conv2d_batched cv x n c h w = Some y ->
  shape y = [n; out_channels cv; (h + 2 * padding cv - kernel_size cv + 1)%nat;
             (w + 2 * padding cv - kernel_size cv + 1)%nat] /\
  c = in_channels cv.
Proof.
  unfold conv2d_batched. intros H.
  destruct (Nat.eqb_spec c (in_channels cv)); cbn [negb] in H; [|discriminate].
  destruct (out_channels cv =? 0)%nat; [discriminate|].
  destruct (kernel_size cv =? 0)%nat; [discriminate|].
  destruct ((h + 2 * padding cv <? kernel_size cv)%nat
            || (w + 2 * padding cv <? kernel_size cv)%nat)%bool; [discriminate|].
  inversion H. split; [reflexivity | assumption].
Qed.

(** X5: a [DSConv2d] computes the same as one dense convolution (groups = 1,
    same kernel size and padding) whose kernel for the channels [(o, c)] is
    the depthwise kernel of [c] scaled by the pointwise weight of [(o, c)]:
    the two return the same tensor, or both fail, on every input. *)
Theorem DSConv2d_is_factored_dense_conv (cin cout k p : nat) (dw pw : nat -> R)
    (ds : DSConv2d) (x : tensor R) :
  DSConv2d_new cin cout k p dw pw = Some ds ->
  DSConv2d_forward ds x = Conv2d_call (dense_of ds) x.
Proof.
  intros Hnew. apply DSConv2d_new_inv in Hnew as [Hc ->].
  destruct (shape x) as [|n [|c [|h [|w [|? ?]]]]] eqn:Hs;
    try (unfold DSConv2d_forward, Conv2d_call; rewrite Hs; reflexivity).
  - (* one unbatched image *)
    pose proof (DSConv2d_batched_dense cin cout k p dw pw
                  (mkTensor [1%nat; n; c; h] (data x)) 1 n c h Hc eq_refl) as Hb.
    cbv zeta in Hb.
    unfold DSConv2d_forward. unfold Conv2d_call at 1 3. rewrite Hs.
    rewrite <- Hb.
    destruct (conv2d_batched _ (mkTensor [1%nat; n; c; h] (data x)) 1 n c h)
      as [y|] eqn:Ey; [|reflexivity].
    cbn [bind]. apply conv2d_batched_shape in Ey as [Hsy _].
    cbn [out_channels depthwise padding kernel_size] in Hsy.
    unfold Conv2d_call. cbn [shape data]. rewrite Hsy. cbn [tl].
    destruct y as [sh d]. cbn [shape data] in *. subst sh. reflexivity.
  - (* a batch *)
    pose proof (DSConv2d_batched_dense cin cout k p dw pw x n c h w Hc Hs) as Hb.
    cbv zeta in Hb.
    unfold DSConv2d_forward. unfold Conv2d_call at 1 3. rewrite Hs. exact Hb.
Qed.

Lemma DSConv2d_is_factored_dense_conv_witness :
  exists ds,
    DSConv2d_new 2 3 3 1 INR INR = Some ds /\
    DSConv2d_forward ds (init_tensor [1; 2; 4; 5]%nat INR)
    = Conv2d_call (dense_of ds) (init_tensor [1; 2; 4; 5]%nat INR).
Proof.
  eexists. split; [reflexivity|].
  apply (DSConv2d_is_factored_dense_conv 2 3 3 1 INR INR _ _ eq_refl).
Defined.

End SeparableConvTheorems.

(** ** More on the target construction *)

Section TargetExtras.
Import Tensor Train.

Lemma scatter_writes_bad (n m : nat) (value : Z) (idxs : list Z) :
  Exists (fun i => ~ in_range n i) idxs ->
  forall pos y, scatter_writes n m pos idxs value y = None.
Proof.
  induction 1 as [ix idxs Hix | ix idxs _ IH]; intros pos y; simpl.
  - destruct ((0 <=? ix)%Z && (ix <? Z.of_nat n)%Z)%bool eqn:E; [|reflexivity].
    apply in_range_test in E. contradiction.
  - destruct ((0 <=? ix)%Z && (ix <? Z.of_nat n)%Z)%bool; [apply IH | reflexivity].
Qed.

Lemma build_targets_bad_index (batch_size n : nat) (eps : R)
    (garbage : nat -> Z) (y_multihot os : tensor Z) (s_size : nat) :
  shape y_multihot = [batch_size; n] ->
  Exists (fun i => ~ in_range n i) (data os) \/ n = 0%nat ->
  build_targets batch_size n eps garbage y_multihot s_size os = None.
Proof.
  intros Hsy Hbad. unfold build_targets.
  set (y0 := if negb (s_size =? batch_size)%nat
             then LongTensor_new s_size n garbage else y_multihot).
  assert (Hs0 : exists b, shape (zero_ y0) = [b; n]).
  { subst y0. destruct (negb (s_size =? batch_size)%nat); simpl; eauto. }
  destruct Hs0 as (b & Hs0). unfold scatter_1. rewrite Hs0.
  destruct (shape os) as [|b' [|m [|? ?]]]; try reflexivity.
  destruct (b' <=? b)%nat; [|reflexivity].
  destruct Hbad as [Hbad | ->].
  - now rewrite scatter_writes_bad.
  - destruct (scatter_writes 0 m 0 (data os) 1 (data (zero_ y0))); reflexivity.
Qed.

(** X6: the target construction fails when an index of a true object is
    outside [0, num_entities), and when there is no entity at all. *)
Theorem build_targets_rejects_bad_index (batch_size n : nat) (eps : R)
    (garbage : nat -> Z) (y_multihot os : tensor Z) (s_size : nat) :
  shape y_multihot = [batch_size; n] ->
  Exists (fun i => ~ in_range n i) (data os) \/ n = 0%nat ->
  build_targets batch_size n eps garbage y_multihot s_size os = None.
Proof. apply build_targets_bad_index. Qed.

Lemma build_targets_rejects_bad_index_witness :
  build_targets 2 3 0.1 (fun _ => 7%Z) (LongTensor_new 2 3 (fun _ => 7%Z)) 2
    (mkTensor [2; 1]%nat [0; 3]%Z) = None.
Proof.
  apply build_targets_rejects_bad_index; [reflexivity|].
  left. apply Exists_cons_tl, Exists_cons_hd. unfold in_range. lia.
Defined.

Lemma map_const_repeat {A B : Type} (c : B) (l : list A) :
  map (fun _ => c) l = repeat c (length l).
Proof. induction l as [|a l IH]; simpl; [reflexivity | now rewrite IH]. Qed.

(** X7: the targets of a batch do not depend on what the buffer held
    before: two buffers of the configured shape, and any content of freshly
    allocated storage, give the same multi-hot buffer and the same smoothed
    targets. *)
Theorem build_targets_ignores_stale_buffer (batch_size n : nat) (eps : R)
    (garbage garbage' : nat -> Z) (y y' os : tensor Z) (s_size : nat) :
  shape y = [batch_size; n] -> wf y ->
  shape y' = [batch_size; n] -> wf y' ->
  build_targets batch_size n eps garbage y s_size os
  = build_targets batch_size n eps garbage' y' s_size os.
Proof.
  intros Hs Hw Hs' Hw'. unfold build_targets.
  assert (Hz : zero_ (if negb (s_size =? batch_size)%nat
                      then LongTensor_new s_size n garbage else y)
               = zero_ (if negb (s_size =? batch_size)%nat
                        then LongTensor_new s_size n garbage' else y')).
  { unfold zero_, tmap. destruct (negb (s_size =? batch_size)%nat); simpl.
    - now rewrite !map_const_repeat, !length_map.
    - unfold wf in *. rewrite Hs, Hs', !map_const_repeat, Hw, Hw', Hs, Hs'.
      reflexivity. }
  now rewrite Hz.
Qed.

Lemma build_targets_ignores_stale_buffer_witness :
  build_targets 2 3 0.1 (fun _ => 7%Z) (LongTensor_new 2 3 (fun _ => 7%Z)) 2
    (mkTensor [2; 1]%nat [0; 2]%Z)
  = build_targets 2 3 0.1 (fun _ => 0%Z) (LongTensor_new 2 3 (fun _ => 1%Z)) 2
      (mkTensor [2; 1]%nat [0; 2]%Z).
Proof.
  apply build_targets_ignores_stale_buffer;
    try reflexivity; apply init_tensor_wf.
Defined.



(** X9: with a smoothing factor in [0, 1] every smoothed target lies in
    [0, 1], which is what the criterion takes as a target. *)
Theorem smoothed_targets_in_unit_interval (batch_size n : nat) (eps : R)
    (garbage : nat -> Z) (y_multihot os : tensor Z) (s_size m : nat)
    (y2 : tensor Z) (y_smooth : tensor R) :
  shape y_multihot = [batch_size; n] -> wf y_multihot ->
  shape os = [s_size; m] -> wf os ->
  0 <= eps <= 1 ->
  build_targets batch_size n eps garbage y_multihot s_size os = Some (y2, y_smooth) ->
  shape y_smooth = [s_size; n] /\
  Forall (fun v => 0 <= v <= 1) (data y_smooth).
Proof.
  intros Hsy Hwy Hso Hwo Heps Hb.
  assert (Hr : Forall (in_range n) (data os)).
  { apply Forall_forall. intros i Hi.
    destruct (Z_le_dec 0 i) as [H0 | H0];
      [destruct (Z_lt_dec i (Z.of_nat n)) as [H1 | H1]; [split; assumption|]|];
      exfalso;
      rewrite (build_targets_bad_index batch_size n eps garbage
                 y_multihot os s_size Hsy) in Hb; try discriminate;
      left; apply Exists_exists; exists i; (split; [assumption | unfold in_range; lia]). }
  assert (Hn : (0 < n)%nat).
  { destruct n; [|lia]. exfalso.
    rewrite (build_targets_bad_index batch_size 0 eps garbage
               y_multihot os s_size Hsy) in Hb; [discriminate | now right]. }
  destruct (build_targets_elements batch_size n eps garbage y_multihot os s_size m
              Hsy Hwy Hso Hwo Hr Hn) as (y2' & ys & Hb' & Hs & Hw & Hel).
  rewrite Hb in Hb'. inversion Hb'; subst y2' ys. split; [exact Hs|].
  apply Forall_nth. intros p d Hp. rewrite (nth_indep _ d 0) by assumption.
  unfold wf in Hw. rewrite Hs in Hw. simpl in Hw. rewrite Hw in Hp.
  assert (Hi : (p / n < s_size)%nat) by (apply Nat.Div0.div_lt_upper_bound; lia).
  assert (Hj : (p mod n < n)%nat) by (apply Nat.mod_upper_bound; lia).
  specialize (Hel (p / n)%nat (p mod n)%nat Hi Hj).
  unfold get in Hel. rewrite Hs, offset2 in Hel.
  replace (p / n * n + p mod n)%nat with p in Hel
    by (rewrite (Nat.div_mod_eq p n) at 1; lia).
  rewrite Hel.
  assert (Hn1 : 1 <= INR n) by (change 1 with (INR 1); apply le_INR; lia).
  assert (Hq : 0 <= eps / INR n <= eps).
  { split.
    - apply Rmult_le_pos; [lra|]. left. apply Rinv_0_lt_compat. lra.
    - apply (Rmult_le_reg_r (INR n)); [lra|].
      unfold Rdiv. rewrite Rmult_assoc, Rinv_l by lra. nra. }
  destruct (in_dec Z.eq_dec (Z.of_nat (p mod n)) (objects os (p / n))); lra.
Qed.

Lemma smoothed_targets_in_unit_interval_witness :
  exists y2 y_smooth,
    build_targets 2 3 0.1 (fun _ => 7%Z) (LongTensor_new 2 3 (fun _ => 7%Z)) 2
      (mkTensor [2; 2]%nat [0; 2; 1; 1]%Z) = Some (y2, y_smooth) /\
    shape y_smooth = [2; 3]%nat /\
    Forall (fun v => 0 <= v <= 1) (data y_smooth).
Proof.
  eexists. eexists. split; [reflexivity|].
  eapply (smoothed_targets_in_unit_interval 2 3 0.1 (fun _ => 7%Z)
           (LongTensor_new 2 3 (fun _ => 7%Z)) (mkTensor [2; 2]%nat [0; 2; 1; 1]%Z)
           2 2 _ _ eq_refl (init_tensor_wf _ _) eq_refl eq_refl);
    [lra | reflexivity].
Defined.

End TargetExtras.

(** ** More on the criterion and the moving average *)

Section LossExtras.
Import Tensor StableBCELoss Train.

Lemma vsum_bounds (lo hi : R) (l : list R) :
  Forall (fun v => lo <= v <= hi) l ->
  INR (length l) * lo <= vsum l <= INR (length l) * hi.
Proof.
  induction 1 as [|v l Hv _ IH]; [simpl; lra|].
  cbn [length vsum fold_right]. fold (vsum l). rewrite S_INR. lra.
Qed.

Lemma vsum_pos (l : list R) :
  l <> [] -> Forall (fun v => 0 < v) l -> 0 < vsum l.
Proof.
  intros Hne H. induction H as [|v l Hv Hl IH]; [contradiction|].
  cbn [vsum fold_right]. fold (vsum l). destruct l as [|v' l'].
  - simpl. lra.
  - assert (0 < vsum (v' :: l')) by (apply IH; discriminate). lra.
Qed.

(** The mean of a non-empty list lies between bounds of its elements. *)
Lemma mean_bounds (lo hi : R) (l : list R) :
  l <> [] -> Forall (fun v => lo <= v <= hi) l ->
  lo <= vsum l / INR (length l) <= hi.
Proof.
  intros Hne H. pose proof (vsum_bounds lo hi l H) as [Hl Hh].
  assert (Hn : 0 < INR (length l)).
  { apply lt_0_INR. destruct l; [contradiction | simpl; lia]. }
  split.
  - apply (Rmult_le_reg_r (INR (length l))); [assumption|].
    unfold Rdiv. rewrite Rmult_assoc, Rinv_l by lra. lra.
  - apply (Rmult_le_reg_r (INR (length l))); [assumption|].
    unfold Rdiv. rewrite Rmult_assoc, Rinv_l by lra. lra.
Qed.

Lemma shape_eqb_true (s1 s2 : list nat) : shape_eqb s1 s2 = true -> s1 = s2.
Proof.
  unfold shape_eqb. destruct (list_eq_dec Nat.eq_dec s1 s2); [auto | discriminate].
Qed.

(** A criterion that returns has been given two tensors of one shape with
    at least one element. *)
Lemma forward_some_inv (x t : tensor R) (L : R) :
  wf x -> wf t -> forward x t = Some L ->
  shape x = shape t /\ data x <> [] /\ length (data t) = length (data x) /\
  L = vsum (zip_with elem_loss (data x) (data t)) / INR (length (data x)).
Proof.
  intros Hx Ht H.
  assert (Hs : shape x = shape t).
  { unfold forward, t_mul, tzip in H.
    destruct (shape_eqb (shape x) (shape t)) eqn:E; [|discriminate].
    now apply shape_eqb_true. }
  assert (Hlen : length (data t) = length (data x))
    by (unfold wf in *; rewrite Hx, Ht, Hs; reflexivity).
  destruct (data x) as [|v dx] eqn:Hd.
  - exfalso. unfold forward, t_mul, t_sub, t_add in H.
    rewrite (tzip_same_shape _ x t Hs) in H. cbn [bind] in H.
    rewrite tzip_same_shape in H by reflexivity. cbn [bind] in H.
    rewrite tzip_same_shape in H by reflexivity. cbn [bind] in H.
    unfold t_mean, numel, t_clamp_min, tmap, zip_with in H. cbn [data] in H.
    rewrite Hd in H. simpl in H. discriminate.
  - rewrite forward_storage in H; try assumption.
    + inversion H. unfold numel. rewrite Hd.
      repeat split; try assumption; discriminate.
    + unfold numel. rewrite Hd. simpl. lia.
Qed.

Lemma zip_with_Forall (f : R -> R -> R) (Q : R -> Prop) (a b : list R) :
  (forall k, (k < length a)%nat -> (k < length b)%nat ->
     Q (f (nth k a 0) (nth k b 0))) ->
  Forall Q (zip_with f a b).
Proof.
  revert b; induction a as [|x a IH]; intros b H; [constructor|].
  destruct b as [|y b]; [constructor|].
  unfold zip_with in *. simpl. constructor.
  - apply (H 0%nat); simpl; lia.
  - apply IH. intros k Ha Hb. apply (H (S k)); simpl; lia.
Qed.

Lemma criterion_positive (x t : tensor R) (L : R) :
  wf x -> wf t ->
  Forall (fun v => 0 <= v <= 1) (data t) ->
  forward x t = Some L ->
  0 < L.
Proof.
  intros Hx Ht Htg H.
  destruct (forward_some_inv x t L Hx Ht H) as (Hs & Hne & Hlen & ->).
  assert (Hn : 0 < INR (length (data x))).
  { apply lt_0_INR. destruct (data x); [contradiction | simpl; lia]. }
  rewrite Forall_forall in Htg.
  apply Rdiv_lt_0_compat; [|assumption]. apply vsum_pos.
  - intros E. apply (f_equal (@length R)) in E.
    rewrite zip_with_length in E by lia. simpl in E.
    destruct (data x); [contradiction | discriminate].
  - apply zip_with_Forall. intros k Ha Hb.
    apply elem_loss_bounds. apply Htg, nth_In, Hb.
Qed.

Lemma criterion_upper (x t : tensor R) (L M : R) :
  wf x -> wf t ->
  Forall (fun v => 0 <= v <= 1) (data t) ->
  Forall (fun v => Rabs v <= M) (data x) ->
  forward x t = Some L ->
  L <= M + ln 2.
Proof.
  intros Hx Ht Htg Hbd H.
  destruct (forward_some_inv x t L Hx Ht H) as (Hs & Hne & Hlen & ->).
  set (l := zip_with elem_loss (data x) (data t)).
  assert (Hll : length l = length (data x))
    by (subst l; apply zip_with_length; lia).
  assert (Hlne : l <> []).
  { intros E. rewrite E in Hll. simpl in Hll.
    destruct (data x); [contradiction | discriminate]. }
  rewrite Forall_forall in Htg, Hbd.
  rewrite <- Hll. apply (mean_bounds 0 (M + ln 2) l Hlne).
  subst l. apply zip_with_Forall. intros k Ha Hb.
  pose proof (elem_loss_bounds (nth k (data x) 0) (nth k (data t) 0)
                (Htg _ (nth_In _ _ Hb))) as [H1 H2].
  pose proof (Hbd _ (nth_In _ 0 Ha)). lra.
Qed.

(** X10: on targets in [0, 1] the criterion returns a loss that is not
    negative, and at most [M + ln 2] when no logit exceeds [M] in absolute
    value. *)
Theorem criterion_nonnegative_and_bounded (x t : tensor R) (L M : R) :
  wf x -> wf t ->
  Forall (fun v => 0 <= v <= 1) (data t) ->
  Forall (fun v => Rabs v <= M) (data x) ->
  forward x t = Some L ->
  0 <= L <= M + ln 2.
Proof.
  intros Hx Ht Htg Hbd H. split.
  - apply Rlt_le. now apply (criterion_positive x t).
  - now apply (criterion_upper x t).
Qed.

End LossExtras.

Section AverageExtras.
Import Tensor StableBCELoss Train.

Lemma criterion_nonnegative_and_bounded_witness :
  exists L,
    forward (mkTensor [1; 2]%nat [1; -2]) (mkTensor [1; 2]%nat [1; 0]) = Some L /\
    0 <= L <= 2 + ln 2.
Proof.
  eexists. split.
  - apply forward_storage; try reflexivity. unfold numel. simpl. lia.
  - apply (criterion_nonnegative_and_bounded
             (mkTensor [1; 2]%nat [1; -2]) (mkTensor [1; 2]%nat [1; 0]));
      try reflexivity.
    + repeat (constructor; [lra|]). constructor.
    + constructor; [rewrite Rabs_right; lra|].
      constructor; [rewrite Rabs_left; lra | constructor].
Defined.

Lemma update_within (a b avg l : R) :
  a <= avg <= b -> a <= l <= b -> a <= update_moving_loss avg l <= b.
Proof.
  intros Ha Hl. unfold update_moving_loss.
  destruct (Req_dec_T avg 0); lra.
Qed.

Lemma fold_update_within (a b : R) (rest : list R) (avg : R) :
  a <= avg <= b -> Forall (fun l => a <= l <= b) rest ->
  a <= fold_left update_moving_loss rest avg <= b.
Proof.
  revert avg; induction rest as [|l rest IH]; intros avg Ha H; [assumption|].
  inversion H; subst. simpl. apply IH; [now apply update_within | assumption].
Qed.

(** X11: after an epoch with at least one batch, the moving average lies
    between the smallest and the largest loss of the epoch, whether or not
    it was seeded again on the way. *)
Theorem moving_loss_within_loss_range (losses : list R) (a b : R) :
  losses <> [] -> Forall (fun l => a <= l <= b) losses ->
  a <= moving_loss_of losses <= b.
Proof.
  intros Hne H. destruct losses as [|l0 rest]; [contradiction|].
  inversion H; subst. unfold moving_loss_of. simpl.
  rewrite update_moving_loss_zero. now apply fold_update_within.
Qed.

Lemma moving_loss_within_loss_range_witness :
  [0; 5; 3] <> [] /\ 0 <= moving_loss_of [0; 5; 3] <= 5.
Proof.
  split; [discriminate|].
  apply (moving_loss_within_loss_range [0; 5; 3] 0 5); [discriminate|].
  repeat (constructor; [lra|]). constructor.
Defined.

Lemma fold_update_pos (rest : list R) (avg : R) :
  0 < avg -> Forall (fun l => 0 < l) rest ->
  0 < fold_left update_moving_loss rest avg.
Proof.
  revert avg; induction rest as [|l rest IH]; intros avg Ha H; [assumption|].
  inversion H; subst. simpl. apply IH; [|assumption].
  unfold update_moving_loss. destruct (Req_dec_T avg 0); lra.
Qed.

(** X12: in an epoch whose losses are all strictly positive the moving
    average is never taken for unset again: it is the first loss followed
    by the updates [avg = 0.9 * avg + 0.1 * loss], and it is strictly
    positive after the first batch. *)
Theorem moving_loss_on_positive_losses (losses : list R) :
  Forall (fun L => 0 < L) losses ->
  moving_loss_of losses = spec_moving_average losses /\
  (losses <> [] -> 0 < moving_loss_of losses).
Proof.
  intros Hpos. split; [now apply moving_loss_positive_losses|].
  intros Hne. destruct losses as [|l0 rest]; [contradiction|].
  inversion Hpos; subst. unfold moving_loss_of. simpl.
  rewrite update_moving_loss_zero. now apply fold_update_pos.
Qed.

Lemma moving_loss_on_positive_losses_witness :
  Forall (fun L => 0 < L) [2; 4] /\
  moving_loss_of [2; 4] = spec_moving_average [2; 4] /\
  0 < moving_loss_of [2; 4].
Proof.
  assert (H : Forall (fun L => 0 < L) [2; 4])
    by (repeat (constructor; [lra|]); constructor).
  split; [exact H|].
  destruct (moving_loss_on_positive_losses [2; 4] H) as [H1 H2].
  split; [exact H1 | apply H2; discriminate].
Defined.

End AverageExtras.

(** ** More on the evaluation loop *)

Section ValidExtras.
Import Tensor Valid.

Lemma max_dim0_some (l : list nat) :
  l <> [] -> exists v p, max_dim0 l = Some (v, p) /\ (p < length l)%nat.
Proof.
  induction l as [|x l IH]; intros Hne; [contradiction|]. simpl.
  destruct l as [|y l'].
  - simpl. exists x, 0%nat. split; [reflexivity | lia].
  - destruct IH as (v & p & Hvp & Hp); [discriminate|].
    rewrite Hvp. destruct (v <=? x)%nat.
    + exists x, 0%nat. split; [reflexivity | lia].
    + exists v, (S p). split; [reflexivity | simpl in *; lia].
Qed.

(** On a non-empty ranking a rank between 1 and its length is recorded for
    any object, also for one that the ranking does not list. *)
Lemma rank_of_in_range (idx : list nat) (o : nat) :
  idx <> [] -> exists rk, rank_of idx o = Some rk /\ (1 <= rk <= length idx)%nat.
Proof.
  intros Hne. unfold rank_of.
  destruct (max_dim0_some (eq_mask idx o)) as (v & p & Hvp & Hp).
  - unfold eq_mask. destruct idx; [contradiction | discriminate].
  - rewrite Hvp. simpl. unfold eq_mask in Hp. rewrite length_map in Hp.
    eexists; split; [reflexivity | lia].
Qed.

Lemma is_topk_length (scores : list R) (idx : list nat) :
  is_topk scores idx -> length idx = length scores.
Proof. intros [Hp _]. rewrite (Permutation_length Hp). apply length_seq. Qed.

(** X14: ranks and positions in the order of topk are inverse to each
    other: the entity listed at position [p] gets the rank [p + 1], and the
    entity with the rank [rk] is the one listed at position [rk - 1]; the
    rank of an entity is between 1 and the number of entities. *)
Theorem rank_and_position_are_inverse (scores : list R) (top_indices : list nat) :
  is_topk scores top_indices ->
  (forall p, (p < length scores)%nat ->
     rank_of top_indices (nth p top_indices 0%nat) = Some (p + 1)%nat) /\
  (forall o, (o < length scores)%nat ->
     exists rk, rank_of top_indices o = Some rk /\
       (1 <= rk <= length scores)%nat /\
       nth (rk - 1) top_indices 0%nat = o).
Proof.
  intros Htk. pose proof (is_topk_NoDup _ _ Htk) as Hnd.
  pose proof (is_topk_length _ _ Htk) as Hlen. split.
  - intros p Hp. rewrite <- Hlen in Hp.
    destruct (nth_split top_indices 0%nat Hp) as (l1 & l2 & Heq & Hl1).
    remember (nth p top_indices 0%nat) as o eqn:Eo. clear Eo.
    subst p. rewrite Heq in Hnd |- *. apply rank_of_split.
    intros Hin. apply NoDup_remove_2 in Hnd.
    apply Hnd, in_or_app. now left.
  - intros o Ho.
    pose proof (proj2 (is_topk_in_range scores top_indices o Htk) Ho) as Hin.
    apply in_split in Hin as (pre & post & Heq).
    assert (Hnin : ~ In o pre).
    { rewrite Heq in Hnd. intros H. apply NoDup_remove_2 in Hnd.
      apply Hnd, in_or_app. now left. }
    exists (length pre + 1)%nat. rewrite Heq at 1.
    split; [now apply rank_of_split|]. split.
    + rewrite <- Hlen, Heq, length_app. simpl. lia.
    + replace (length pre + 1 - 1)%nat with (length pre) by lia.
      rewrite Heq. apply nth_middle.
Qed.

Lemma rank_and_position_are_inverse_witness :
  is_topk [3; 1; 2] (topk_stable [3; 1; 2]) /\
  rank_of (topk_stable [3; 1; 2]) (nth 1 (topk_stable [3; 1; 2]) 0%nat) = Some 2%nat /\
  exists rk, rank_of (topk_stable [3; 1; 2]) 1 = Some rk /\
    (1 <= rk <= 3)%nat /\ nth (rk - 1) (topk_stable [3; 1; 2]) 0%nat = 1%nat.
Proof.
  split; [apply topk_stable_is_topk|].
  destruct (rank_and_position_are_inverse [3; 1; 2] (topk_stable [3; 1; 2])
              (topk_stable_is_topk [3; 1; 2])) as [H1 H2].
  split; [apply (H1 1%nat); simpl; lia | apply (H2 1%nat); simpl; lia].
Defined.

Lemma ranks_of_objects_in_range (idx os_i : list nat) :
  idx <> [] ->
  exists rks, ranks_of_objects idx os_i = Some rks /\
    length rks = length os_i /\
    Forall (fun rk => (1 <= rk <= length idx)%nat) rks.
Proof.
  intros Hne. induction os_i as [|o os_i (rks & Hr & Hl & Hf)]; simpl.
  - exists []. repeat split; constructor.
  - destruct (rank_of_in_range idx o Hne) as (rk & Hrk & Hrange).
    rewrite Hrk, Hr. simpl. exists (rk :: rks).
    split; [reflexivity|]. split; [simpl; lia | now constructor].
Qed.

Lemma ranks_of_rows_seq (topk : list R -> list nat) (output : tensor R)
    (os : list (list nat)) (n len st : nat) :
  (1 <= n)%nat -> (st + len <= length os)%nat ->
  (forall i, (st <= i < st + len)%nat ->
     is_topk (row output i) (topk (row output i)) /\ length (row output i) = n) ->
  exists rks, ranks_of_rows topk output os (seq st len) = Some rks /\
    length rks = length (concat (firstn len (skipn st os))) /\
    Forall (fun rk => (1 <= rk <= n)%nat) rks.
Proof.
  intros Hn. revert st; induction len as [|len IH]; intros st Hos Htk.
  - exists []. simpl. repeat split; constructor.
  - simpl seq. simpl ranks_of_rows.
    destruct (nth_error os st) as [os_i|] eqn:Enth;
      [|apply nth_error_None in Enth; lia].
    destruct (Htk st ltac:(lia)) as [Hst Hlen].
    assert (Hne : topk (row output st) <> []).
    { intros E. apply is_topk_length in Hst. rewrite E, Hlen in Hst. simpl in Hst. lia. }
    destruct (ranks_of_objects_in_range (topk (row output st)) os_i Hne)
      as (rks & Hr & Hl & Hf).
    destruct (IH (S st)) as (rest & Hrest & Hlr & Hfr); [lia | intros i Hi; apply Htk; lia|].
    rewrite Hr, Hrest. simpl. exists (rks ++ rest). split; [reflexivity|].
    apply nth_error_split in Enth as (l1 & l2 & Hos' & Hl1).
    assert (Hskip : skipn st os = os_i :: l2).
    { rewrite Hos', <- Hl1, skipn_app, Nat.sub_diag.
      replace (skipn (length l1) l1) with (@nil (list nat))
        by (symmetry; apply skipn_all2; lia).
      reflexivity. }
    assert (Hskip' : skipn (S st) os = l2).
    { rewrite Hos', <- Hl1. replace (S (length l1)) with (length l1 + 1)%nat by lia.
      rewrite Nat.add_comm, <- skipn_skipn, skipn_app, Nat.sub_diag.
      replace (skipn (length l1) l1) with (@nil (list nat))
        by (symmetry; apply skipn_all2; lia).
      reflexivity. }
    split.
    + rewrite Hskip. simpl. rewrite !length_app, Hl, Hlr, Hskip'. reflexivity.
    + apply Forall_app. split; [|assumption].
      rewrite (is_topk_length _ _ Hst), Hlen in Hf. exact Hf.
Qed.

(** X15: when topk meets its contract on the rows of a batch of scores over
    [n >= 1] entities and every evaluated row has its list of true objects,
    the evaluation loop records exactly one rank for each (row, true
    object) pair of the rows [0 .. min(batch_size, s.size()[0]) - 1], and
    each rank is between 1 and [n]. *)
Theorem valid_records_one_rank_per_pair (topk : list R -> list nat)
    (batch_size s_size : nat) (output : tensor R) (os : list (list nat)) (n : nat) :
  (1 <= n)%nat -> (Nat.min batch_size s_size <= length os)%nat ->
  (forall i, (i < Nat.min batch_size s_size)%nat ->
     is_topk (row output i) (topk (row output i)) /\ length (row output i) = n) ->
  exists rks, ranks_of_batch topk batch_size s_size output os = Some rks /\
    length rks = length (concat (firstn (Nat.min batch_size s_size) os)) /\
    Forall (fun rk => (1 <= rk <= n)%nat) rks.
Proof.
  intros Hn Hos Htk. unfold ranks_of_batch.
  destruct (ranks_of_rows_seq topk output os n (Nat.min batch_size s_size) 0 Hn)
    as (rks & Hr & Hl & Hf); [lia | intros i Hi; apply Htk; lia|].
  exists rks. split; [exact Hr|]. split; [exact Hl | exact Hf].
Qed.

Lemma valid_records_one_rank_per_pair_witness :
  exists rks,
    ranks_of_batch topk_stable 4 1 (mkTensor [1; 3]%nat [3; 1; 2]) [[0; 2]%nat] = Some rks /\
    length rks = 2%nat /\ Forall (fun rk => (1 <= rk <= 3)%nat) rks.
Proof.
  apply (valid_records_one_rank_per_pair topk_stable 4 1
           (mkTensor [1; 3]%nat [3; 1; 2]) [[0; 2]%nat] 3); [lia | simpl; lia|].
  intros i Hi. split; [apply topk_stable_is_topk|].
  simpl in Hi. assert (i = 0%nat) by lia. subst i. reflexivity.
Defined.

Lemma ranks_of_rows_short (topk : list R -> list nat) (output : tensor R)
    (os : list (list nat)) (len st : nat) :
  (st <= length os < st + len)%nat ->
  ranks_of_rows topk output os (seq st len) = None.
Proof.
  revert st; induction len as [|len IH]; intros st H; [lia|].
  simpl. destruct (nth_error os st) as [os_i|] eqn:E; [|reflexivity].
  assert (st < length os)%nat by (apply nth_error_Some; congruence).
  rewrite (IH (S st)) by lia.
  destruct (ranks_of_objects (topk (row output st)) os_i); reflexivity.
Qed.

(** X16: when fewer lists of true objects are given than rows are
    evaluated, the evaluation loop fails. *)
Theorem valid_fails_on_missing_objects (topk : list R -> list nat)
    (batch_size s_size : nat) (output : tensor R) (os : list (list nat)) :
  (length os < Nat.min batch_size s_size)%nat ->
  ranks_of_batch topk batch_size s_size output os = None.
Proof.
  intros H. unfold ranks_of_batch. apply ranks_of_rows_short. lia.
Qed.

Lemma valid_fails_on_missing_objects_witness :
  ranks_of_batch topk_stable 2 2 (mkTensor [2; 2]%nat [3; 1; 2; 5]) [[0]%nat] = None.
Proof.
  apply valid_fails_on_missing_objects. simpl. lia.
Defined.

End ValidExtras.

(** ** Bounds on the metrics *)

Section MetricBounds.
Import Tensor Valid.

(** X17: on a non-empty list of ranks between 1 and [n], the mean rank is
    between 1 and [n] and the mean reciprocal rank between [1/n] and 1. *)
Theorem mr_mrr_bounds (ranks : list nat) (n : nat) :
  ranks <> [] -> Forall (fun rk => (1 <= rk <= n)%nat) ranks ->
  exists a b, mr ranks = Some a /\ mrr ranks = Some b /\
    1 <= a <= INR n /\ / INR n <= b <= 1.
Proof.
  intros Hne Hr.
  assert (Hlen : length ranks <> 0%nat) by (destruct ranks; [contradiction | discriminate]).
  unfold mr, mrr, t_mean, numel, t_scalar_div, tmap, FloatTensor. cbn [data].
  rewrite !length_map.
  destruct (Nat.eqb_spec (length ranks) 0); [contradiction|].
  eexists; eexists; split; [reflexivity|]. split; [reflexivity|].
  assert (Hb : forall rk, In rk ranks -> 1 <= INR rk <= INR n).
  { intros rk Hin. rewrite Forall_forall in Hr. specialize (Hr rk Hin).
    split; [change 1 with (INR 1) | ]; apply le_INR; lia. }
  split.
  - rewrite <- (length_map INR ranks).
    apply mean_bounds; [destruct ranks; [contradiction | discriminate]|].
    apply Forall_forall. intros v Hv. apply in_map_iff in Hv as (rk & <- & Hin).
    now apply Hb.
  - rewrite <- (length_map INR ranks), <- (length_map (fun x => 1 / x) (map INR ranks)).
    apply mean_bounds; [destruct ranks; [contradiction | discriminate]|].
    apply Forall_forall. intros v Hv.
    apply in_map_iff in Hv as (u & <- & Hu). apply in_map_iff in Hu as (rk & <- & Hin).
    destruct (Hb rk Hin) as [H1 H2]. unfold Rdiv. rewrite Rmult_1_l. split.
    + apply Rinv_le_contravar; lra.
    + rewrite <- Rinv_1. apply Rinv_le_contravar; lra.
Qed.

Lemma mr_mrr_bounds_witness :
  exists a b, mr [1; 2; 4]%nat = Some a /\ mrr [1; 2; 4]%nat = Some b /\
    1 <= a <= INR 5 /\ / INR 5 <= b <= 1.
Proof.
  apply (mr_mrr_bounds [1; 2; 4]%nat 5); [discriminate|].
  repeat (constructor; [lia|]). constructor.
Defined.

End MetricBounds.

(** ** Failures of the forward pass *)

Section ForwardFailures.
Import Tensor Layers Model.

Lemma view_infer_first_shape {A : Type} (t t' : tensor A) (rest : list nat) :
  view_infer_first t rest = Some t' -> exists n, shape t' = n :: rest.
Proof.
  unfold view_infer_first. intros H.
  destruct (numel_of rest =? 0)%nat; [discriminate|].
  destruct (numel t mod numel_of rest =? 0)%nat; [|discriminate].
  inversion H; subst. simpl. eauto.
Qed.

Lemma conv_input_shape (m : DSConvE) (s r : list Z) (ci : tensor R) :
  conv_input m s r = Some ci ->
  exists n, shape ci = [n; 1%nat; (embedding_size_w m + embedding_size_w m)%nat;
                        embedding_size_h m].
Proof.
  unfold conv_input. intros H.
  destruct (Embedding_call (embed_e m) s) as [es|]; [|discriminate].
  destruct (Embedding_call (embed_r m) r) as [er|]; [|discriminate]. cbn [bind] in H.
  destruct (view_infer_first es _) as [es'|] eqn:Ees; [|discriminate].
  destruct (view_infer_first er _) as [er'|] eqn:Eer; [|discriminate]. cbn [bind] in H.
  apply view_infer_first_shape in Ees as (n1 & Hs1).
  apply view_infer_first_shape in Eer as (n2 & Hs2).
  unfold cat_dim1 in H. rewrite Hs1, Hs2 in H.
  destruct ((n1 =? n2)%nat && (embedding_size_h m =? embedding_size_h m)%nat)%bool;
    [|discriminate].
  cbn [bind] in H. unfold unsqueeze1 in H. cbn [shape] in H.
  inversion H; subst. simpl. eauto.
Qed.

(** X19: a kernel larger than the stacked image is not always refused by
    [__init__] (the product [flattened_size] of two negative factors is
    positive), but a model built with one fails on every batch. *)
Theorem oversized_kernel_always_fails (n_e n_r h w c k : nat) (pe pf pp : R)
    (P : Params) (m : DSConvE) (s r : list Z) :
  DSConvE_init n_e n_r h w c k pe pf pp P = Some m ->
  (2 * w < k)%nat \/ (h < k)%nat ->
  forward m s r = None /\ forall sg, test sg m s r = None.
Proof.
  intros Hinit Hbig.
  assert (Hf : forward m s r = None).
  { unfold forward. destruct (conv_input m s r) as [ci|] eqn:Eci; [|reflexivity].
    cbn [bind]. apply conv_input_shape in Eci as (n & Hs).
    destruct (DSConvE_init_inv _ _ _ _ _ _ _ _ _ _ _ Hinit)
      as (Hmh & Hmw & _ & _ & Hconv & _).
    rewrite Hmh, Hmw in Hs.
    rewrite DSConv2d_new_model in Hconv. inversion Hconv as [Hc].
    unfold conv_e, Dropout_eval, DSConv2d_forward. rewrite <- Hc. cbn [depthwise].
    rewrite (Conv2d_call_fails _ ci n 1 (w + w) h Hs); [reflexivity|].
    right. cbn [padding kernel_size]. lia. }
  split; [exact Hf | intros sg; unfold test; now rewrite Hf].
Qed.

Lemma oversized_kernel_always_fails_witness :
  exists m,
    DSConvE_init 3 2 1 1 1 5 0.2 0.2 0.3 small_params = Some m /\
    forward m [2%Z] [1%Z] = None /\ forall sg, test sg m [2%Z] [1%Z] = None.
Proof.
  destruct (DSConvE_init_some 3 2 1 1 1 5 0.2 0.2 0.3 small_params) as [m Hm];
    [lra | lra | lra | cbv; discriminate |].
  exists m. split; [exact Hm|].
  apply (oversized_kernel_always_fails 3 2 1 1 1 5 0.2 0.2 0.3 small_params m
           [2%Z] [1%Z] Hm). left. lia.
Defined.

(** X20: a batch with as many subjects as relations is required: when the
    two index lists (all within range) differ in length, [forward] and
    [test] fail. *)
Theorem forward_fails_on_length_mismatch (n_e n_r h w c k : nat) (pe pf pp : R)
    (P : Params) (m : DSConvE) (s r : list Z) :
  DSConvE_init n_e n_r h w c k pe pf pp P = Some m ->
  (0 < h)%nat -> (0 < w)%nat ->
  Forall (in_range n_e) s -> Forall (in_range n_r) r ->
  length s <> length r ->
  forward m s r = None /\ forall sg, test sg m s r = None.
Proof.
  intros Hinit Hh Hw Hs Hr Hne.
  destruct (DSConvE_init_inv _ _ _ _ _ _ _ _ _ _ _ Hinit)
    as (Hmh & Hmw & He & Her & _).
  destruct (Embedding_call_in n_e (h * w) (embed_e_init P) s Hs)
    as (es & Hes & Hses & Hwes & _).
  destruct (Embedding_call_in n_r (h * w) (embed_r_init P) r Hr)
    as (er & Hcer & Hser & Hwer & _).
  assert (Hci : conv_input m s r = None).
  { unfold conv_input. rewrite He, Her, Hes, Hcer, Hmh, Hmw. cbn [bind].
    rewrite (view_infer_first_rows es (length s) w h Hw Hh)
      by (unfold numel, wf in *; rewrite Hwes, Hses; simpl; lia).
    rewrite (view_infer_first_rows er (length r) w h Hw Hh)
      by (unfold numel, wf in *; rewrite Hwer, Hser; simpl; lia).
    cbn [bind]. unfold cat_dim1. cbn [shape].
    destruct (Nat.eqb_spec (length s) (length r)); [contradiction | reflexivity]. }
  assert (Hf : forward m s r = None) by (unfold forward; now rewrite Hci).
  split; [exact Hf | intros sg; unfold test; now rewrite Hf].
Qed.

Lemma forward_fails_on_length_mismatch_witness :
  exists m,
    DSConvE_init 3 2 2 1 4 1 0.2 0.2 0.3 small_params = Some m /\
    forward m [2%Z; 0%Z] [1%Z] = None /\ forall sg, test sg m [2%Z; 0%Z] [1%Z] = None.
Proof.
  destruct (DSConvE_init_some 3 2 2 1 4 1 0.2 0.2 0.3 small_params) as [m Hm];
    [lra | lra | lra | cbv; discriminate |].
  exists m. split; [exact Hm|].
  apply (forward_fails_on_length_mismatch 3 2 2 1 4 1 0.2 0.2 0.3 small_params m
           [2%Z; 0%Z] [1%Z] Hm); try (simpl; lia).
  - repeat (constructor; [unfold in_range; lia|]). constructor.
  - apply small_in_range_r.
Defined.

(** X21: [Flatten] of a well-formed tensor returns exactly when the tensor
    has four dimensions the first of which is not 0; it then keeps the
    storage and views it as [n] rows of [c * h * w] values. *)
Theorem Flatten_forward_iff (x f : tensor R) :
  wf x ->
  (Flatten_forward x = Some f <->
   exists n c h w, shape x = [n; c; h; w] /\ (1 <= n)%nat /\
                   f = mkTensor [n; (c * h * w)%nat] (data x)).
Proof.
  intros Hwf. split.
  - unfold Flatten_forward. intros H.
    destruct (shape x) as [|n [|c [|h [|w [|? ?]]]]] eqn:Hs; try discriminate.
    destruct (Nat.eq_dec n 0) as [-> | Hn]; [discriminate|].
    assert (Hff : Flatten_forward x = Some f).
    { unfold Flatten_forward. rewrite Hs. exact H. }
    rewrite (Flatten_forward_ok x n c h w) in Hff by (try assumption; lia).
    inversion Hff. exists n, c, h, w. split; [reflexivity|]. split; [lia | reflexivity].
  - intros (n & c & h & w & Hs & Hn & ->). now apply Flatten_forward_ok.
Qed.

Lemma Flatten_forward_iff_witness :
  Flatten_forward (init_tensor [2; 3; 1; 2]%nat INR)
  = Some (mkTensor [2; 6]%nat (data (init_tensor [2; 3; 1; 2]%nat INR))).
Proof.
  apply (Flatten_forward_iff (init_tensor [2; 3; 1; 2]%nat INR) _ (init_tensor_wf _ _)).
  exists 2%nat, 3%nat, 1%nat, 2%nat. split; [reflexivity|]. split; [lia | reflexivity].
Defined.

End ForwardFailures.

(** ** The files of a run *)

Section NamingFacts.
Import Ascii String Naming.
Local Open Scope string_scope.

Lemma append_inj_l (a x y : string) : a ++ x = a ++ y -> x = y.
Proof.
  induction a as [|c a IH]; simpl; intros H; [assumption|].
  inversion H. now apply IH.
Qed.

Lemma length_append (x y : string) :
  length (x ++ y) = (length x + length y)%nat.
Proof. induction x as [|c x IH]; simpl; [reflexivity | now rewrite IH]. Qed.

Lemma append_inj_r (s x y : string) : x ++ s = y ++ s -> x = y.
Proof.
  revert y; induction x as [|c x IH]; intros [|d y] H; simpl in H.
  - reflexivity.
  - apply (f_equal length) in H. simpl in H. rewrite length_append in H. lia.
  - apply (f_equal length) in H. simpl in H. rewrite length_append in H. lia.
  - inversion H. f_equal. now apply IH.
Qed.

Lemma to_uint_normal (n : nat) : Decimal.unorm (Nat.to_uint n) = Nat.to_uint n.
Proof.
  rewrite <- (DecimalNat.Unsigned.of_to n) at 2.
  now rewrite DecimalNat.Unsigned.to_of.
Qed.

Lemma to_uint_nonnil (n : nat) : Nat.to_uint n <> Decimal.Nil.
Proof. rewrite <- to_uint_normal. apply DecimalFacts.unorm_nonnil. Qed.

Lemma str_inj (a b : nat) : str a = str b -> a = b.
Proof.
  unfold str. intros H. apply DecimalNat.Unsigned.to_uint_inj.
  assert (E : Some (Nat.to_uint a) = Some (Nat.to_uint b)).
  { rewrite <- (DecimalString.NilZero.usu _ (to_uint_nonnil a)).
    rewrite <- (DecimalString.NilZero.usu _ (to_uint_nonnil b)).
    now rewrite H. }
  now inversion E.
Qed.

(** The decimal digits of a positive number start with a digit that is
    not 0. *)
Lemma str_head (n : nat) :
  (1 <= n)%nat ->
  exists c r, str n = String c r /\ c <> "0"%char /\ c <> "+"%char /\ c <> "-"%char.
Proof.
  intros Hn. unfold str.
  pose proof (to_uint_normal n) as Hnorm.
  assert (Hnz : Decimal.nzhead (Nat.to_uint n) <> Decimal.Nil).
  { intros E. apply DecimalFacts.unorm_0 in E. rewrite Hnorm in E.
    apply (f_equal Nat.of_uint) in E. rewrite DecimalNat.Unsigned.of_to in E.
    cbv in E. lia. }
  pose proof (DecimalFacts.unorm_nzhead _ Hnz) as Hu. rewrite Hnorm in Hu.
  destruct (Nat.to_uint n) as [|d|d|d|d|d|d|d|d|d|d] eqn:E;
    [contradiction | exfalso; exact (DecimalFacts.nzhead_nonzero _ _ (eq_sym Hu)) | ..];
    simpl; eexists; eexists; (split; [reflexivity|]); repeat split; discriminate.
Qed.

Lemma zfill2_str_inj (a b : nat) :
  (1 <= a)%nat -> (1 <= b)%nat -> zfill 2 (str a) = zfill 2 (str b) -> a = b.
Proof.
  intros Ha Hb H. apply str_inj.
  destruct (str_head a Ha) as (ca & ra & Ea & Ha0 & Hap & Ham).
  destruct (str_head b Hb) as (cb & rb & Eb & Hb0 & Hbp & Hbm).
  rewrite Ea, Eb in *. unfold zfill in H.
  apply Ascii.eqb_neq in Hap, Ham, Hbp, Hbm.
  rewrite Hap, Ham, Hbp, Hbm in H. simpl in H.
  destruct ra as [|ca' ra], rb as [|cb' rb]; simpl in H.
  - now inversion H.
  - inversion H. congruence.
  - inversion H. congruence.
  - exact H.
Qed.

Example checkpoint_file_first_epoch :
  checkpoint_file "run" 0 = "checkpoint-run/checkpoint_01.model".
Proof. reflexivity. Qed.

Example checkpoint_file_hundredth_epoch :
  checkpoint_file "" 99 = "checkpoint-/checkpoint_100.model".
Proof. reflexivity. Qed.

Example zfill_after_sign : zfill 4 "-7" = "-007".
Proof. reflexivity. Qed.

(** X22: within a run, the checkpoints of two epochs are written to the
    same file only if the epochs are the same: no checkpoint overwrites
    another. *)
Theorem checkpoint_file_per_epoch (name : string) (e1 e2 : nat) :
  checkpoint_file name e1 = checkpoint_file name e2 <-> e1 = e2.
Proof.
  split; [|now intros ->].
  unfold checkpoint_file. intros H.
  apply append_inj_l, append_inj_l, append_inj_r in H.
  apply zfill2_str_inj in H; lia.
Qed.

(** X23: without [--log-file], the file name that [setup_logger] prints
    and passes to [logging.basicConfig] is the same string for two runs
    exactly when they have the same name, or one has no name and the
    other is named "train". *)
Theorem log_file_shared_iff (n1 n2 : string) :
  log_file_of None n1 = log_file_of None n2 <->
  n1 = n2 \/ (n1 = "" /\ n2 = "train") \/ (n1 = "train" /\ n2 = "").
Proof.
  unfold log_file_of. split.
  - destruct (String.eqb_spec n1 "") as [-> | H1], (String.eqb_spec n2 "") as [-> | H2];
      intros H.
    + now left.
    + right; left. split; [reflexivity|].
      change "train.log" with ("train" ++ ".log") in H.
      apply append_inj_r in H. now symmetry.
    + right; right. split; [|reflexivity].
      change "train.log" with ("train" ++ ".log") in H.
      now apply append_inj_r in H.
    + left. now apply append_inj_r in H.
  - intros [-> | [[-> ->] | [-> ->]]]; reflexivity.
Qed.

End NamingFacts.

(** ** The model in training mode *)

Section TrainingMode.
Import Tensor Layers Model.

Lemma Dropout_train_wf (p : R) (keep : nat -> bool) (x : tensor R) :
  wf x -> wf (Dropout_train p keep x).
Proof. unfold wf, Dropout_train. cbn [shape data]. now rewrite map_indexed_length. Qed.

Lemma Dropout2d_train_wf (p : R) (keep : nat -> bool) (x : tensor R) :
  wf x -> wf (Dropout2d_train p keep x).
Proof. unfold wf, Dropout2d_train. cbn [shape data]. now rewrite map_indexed_length. Qed.

(** Batch normalization in training mode keeps the shape whenever it
    returns. *)
Lemma BatchNorm_train_shape (bn bn' : BatchNorm) (n c hw : nat) (x y : tensor R) :
  BatchNorm_train bn n c hw x = Some (y, bn') -> shape y = shape x.
Proof.
  unfold BatchNorm_train. intros H.
  destruct (n * hw =? 1)%nat; [discriminate|].
  destruct (n * c * hw =? 0)%nat.
  - destruct (num_features bn =? 0)%nat; [discriminate|]. now inversion H.
  - destruct (negb (c =? num_features bn)%nat); [discriminate|]. now inversion H.
Qed.

Lemma BatchNorm_train_ok (bn : BatchNorm) (n c hw : nat) (x : tensor R) :
  (2 <= n * hw)%nat -> (1 <= c)%nat -> num_features bn = c -> wf x ->
  exists y bn', BatchNorm_train bn n c hw x = Some (y, bn') /\
    shape y = shape x /\ wf y /\
    num_features bn' = c /\ bn_eps bn' = bn_eps bn /\
    bn_gamma bn' = bn_gamma bn /\ bn_beta bn' = bn_beta bn.
Proof.
  intros Hn Hc Hf Hwf. unfold BatchNorm_train.
  destruct (Nat.eqb_spec (n * hw) 1); [lia|].
  destruct (Nat.eqb_spec (n * c * hw) 0); [nia|].
  rewrite Hf, Nat.eqb_refl. cbn [negb].
  eexists; eexists; split; [reflexivity|]. split; [reflexivity|].
  split; [|repeat split; reflexivity].
  unfold wf in *. cbn [shape data]. now rewrite map_indexed_length.
Qed.

Lemma BatchNorm2d_train_eq (bn : BatchNorm) (x : tensor R) (n c h w : nat) :
  shape x = [n; c; h; w] ->
  BatchNorm2d_train bn x = BatchNorm_train bn n c (h * w) x.
Proof. intros Hs. unfold BatchNorm2d_train. now rewrite Hs. Qed.

Lemma BatchNorm1d_train_eq (bn : BatchNorm) (x : tensor R) (n c : nat) :
  shape x = [n; c] ->
  BatchNorm1d_train bn x = BatchNorm_train bn n c 1 x.
Proof. intros Hs. unfold BatchNorm1d_train. now rewrite Hs. Qed.

(** The stacked input has one image per subject. *)
Lemma in_range_dec (n : nat) (i : Z) : {in_range n i} + {~ in_range n i}.
Proof.
  destruct ((0 <=? i)%Z && (i <? Z.of_nat n)%Z)%bool eqn:E.
  - left. now apply in_range_test.
  - right. intros H. apply in_range_test in H. congruence.
Qed.

Lemma Embedding_call_some (num dim : nat) (init : nat -> R) (idx : list Z)
    (t : tensor R) :
  Embedding_call (Embedding_new num dim init) idx = Some t ->
  shape t = [length idx; dim] /\ wf t.
Proof.
  intros H.
  destruct (Forall_Exists_dec (in_range num) (in_range_dec num) idx) as [Hin | Hout].
  - destruct (Embedding_call_in num dim init idx Hin) as (t' & Ht' & Hs & Hw & _).
    rewrite Ht' in H. inversion H; subst. now split.
  - rewrite Embedding_call_out in H by exact Hout. discriminate.
Qed.

Lemma conv_input_rows (n_e n_r h w c k : nat) (pe pf pp : R) (P : Params)
    (m : DSConvE) (s r : list Z) (ci : tensor R) :
  DSConvE_init n_e n_r h w c k pe pf pp P = Some m ->
  conv_input m s r = Some ci ->
  shape ci = [length s; 1%nat; (w + w)%nat; h].
Proof.
  intros Hinit H.
  destruct (DSConvE_init_inv _ _ _ _ _ _ _ _ _ _ _ Hinit)
    as (Hmh & Hmw & He & Her & _).
  unfold conv_input in H. rewrite He, Her, Hmh, Hmw in H.
  destruct (Embedding_call _ s) as [es|] eqn:Ees; [|discriminate].
  destruct (Embedding_call _ r) as [er|] eqn:Eer; [|discriminate]. cbn [bind] in H.
  apply Embedding_call_some in Ees as [Hses Hwes].
  apply Embedding_call_some in Eer as [Hser Hwer].
  unfold view_infer_first in H. cbn [numel_of fold_right] in H.
  destruct (Nat.eqb_spec (w * (h * 1)) 0) as [E | E]; [discriminate|].
  assert (Hnes : numel es = (length s * (w * (h * 1)))%nat)
    by (unfold numel, wf in *; rewrite Hwes, Hses; simpl; nia).
  rewrite Hnes, Nat.Div0.mod_mul, Nat.div_mul in H by exact E.
  rewrite Nat.eqb_refl in H. cbn [bind] in H.
  destruct (numel er mod (w * (h * 1)) =? 0)%nat; [|discriminate]. cbn [bind] in H.
  unfold cat_dim1 in H. cbn [shape] in H.
  destruct ((length s =? numel er / (w * (h * 1)))%nat && (h =? h)%nat)%bool;
    [|discriminate].
  cbn [bind] in H. unfold unsqueeze1 in H. cbn [shape] in H.
  inversion H. reflexivity.
Qed.

Lemma DSConv2d_forward_rows (ds : DSConv2d) (x y : tensor R) (n c h w : nat) :
  shape x = [n; c; h; w] -> DSConv2d_forward ds x = Some y ->
  exists c' h' w', shape y = [n; c'; h'; w'].
Proof.
  intros Hs H. unfold DSConv2d_forward in H.
  destruct (Conv2d_call (depthwise ds) x) as [mid|] eqn:Em; [|discriminate].
  cbn [bind] in H. unfold Conv2d_call in Em. rewrite Hs in Em.
  apply conv2d_batched_shape in Em as [Hsm _].
  unfold Conv2d_call in H. rewrite Hsm in H.
  apply conv2d_batched_shape in H as [Hsy _]. eauto.
Qed.

Lemma Flatten_forward_rows (x f : tensor R) (n c h w : nat) :
  shape x = [n; c; h; w] -> Flatten_forward x = Some f ->
  exists q, shape f = [n; q].
Proof.
  intros Hs H. unfold Flatten_forward, view_infer_last in H. rewrite Hs in H.
  destruct (n =? 0)%nat; [discriminate|].
  destruct (numel x mod n =? 0)%nat; [|discriminate]. inversion H. simpl. eauto.
Qed.

Lemma Linear_call_rows (l : Linear) (x z : tensor R) (n q : nat) :
  shape x = [n; q] -> Linear_call l x = Some z -> shape z = [n; out_features l].
Proof.
  intros Hs H. unfold Linear_call in H. rewrite Hs in H.
  destruct (q =? in_features l)%nat; [|discriminate]. now inversion H.
Qed.

(** The projection in training mode fails on a batch of one image: the
    last batch normalization has one value per feature. *)
Lemma conv_e_train_single (m : DSConvE) (mk : Masks) (x : tensor R) (c h w : nat) :
  shape x = [1%nat; c; h; w] -> conv_e_train m mk x = None.
Proof.
  intros Hs. unfold conv_e_train.
  destruct (DSConv2d_forward _ _) as [x1|] eqn:E1; [|reflexivity]. cbn [bind].
  apply (DSConv2d_forward_rows _ _ _ 1 c h w) in E1 as (c' & h' & w' & Hs1);
    [|exact Hs].
  destruct (BatchNorm2d_train _ _) as [[x3 bn2]|] eqn:E3; [|reflexivity]. cbn [bind fst snd].
  assert (Hs3 : shape x3 = [1%nat; c'; h'; w']).
  { rewrite (BatchNorm2d_train_eq _ (ReLU x1) 1 c' h' w' Hs1) in E3.
    apply BatchNorm_train_shape in E3. rewrite E3. exact Hs1. }
  destruct (Flatten_forward _) as [x5|] eqn:E5; [|reflexivity]. cbn [bind].
  apply (Flatten_forward_rows _ _ 1 c' h' w') in E5 as (q & Hs5); [|exact Hs3].
  destruct (Linear_call _ _) as [x6|] eqn:E6; [|reflexivity]. cbn [bind].
  apply (Linear_call_rows _ _ _ 1 q Hs5) in E6.
  rewrite (BatchNorm1d_train_eq _ (ReLU x6) 1 _ E6).
  unfold BatchNorm_train. reflexivity.
Qed.

(** X24: in training mode, the mode in which [train] calls the model,
    [forward] raises on every batch of one query, whatever the indices and
    the dropout masks: the batch normalization of the projection needs
    more than one value per feature. *)
Theorem forward_train_fails_on_single_query (n_e n_r h w c k : nat) (pe pf pp : R)
    (P : Params) (m : DSConvE) (mk : Masks) (s r : list Z) :
  DSConvE_init n_e n_r h w c k pe pf pp P = Some m ->
  length s = 1%nat ->
  forward_train m mk s r = None.
Proof.
  intros Hinit Hlen. unfold forward_train.
  destruct (conv_input m s r) as [ci|] eqn:Eci; [|reflexivity]. cbn [bind].
  apply (conv_input_rows _ _ _ _ _ _ _ _ _ _ _ _ _ _ Hinit) in Eci.
  rewrite Hlen in Eci. now rewrite (conv_e_train_single m mk ci 1 (w + w) h Eci).
Qed.

Lemma forward_train_fails_on_single_query_witness :
  exists m,
    DSConvE_init 3 2 2 1 4 1 0.2 0.2 0.3 small_params = Some m /\
    (exists scores, Model.forward m [2%Z] [1%Z] = Some scores) /\
    forall mk, forward_train m mk [2%Z] [1%Z] = None.
Proof.
  destruct (DSConvE_init_some 3 2 2 1 4 1 0.2 0.2 0.3 small_params) as [m Hm];
    [lra | lra | lra | cbv; discriminate |].
  exists m. split; [exact Hm|].
  split.
  - destruct (forward_total 3 2 2 1 4 1 0.2 0.2 0.3 small_params m [2%Z] [1%Z] Hm
                ltac:(lia) ltac:(lia) ltac:(lia) ltac:(lia) ltac:(lia) (Nat.le_refl 1)
                eq_refl small_in_range_e small_in_range_r)
      as (scores & Hs & _).
    exists scores. exact Hs.
  - intros mk.
    exact (forward_train_fails_on_single_query 3 2 2 1 4 1 0.2 0.2 0.3 small_params m
             mk [2%Z] [1%Z] Hm eq_refl).
Defined.

(** X25: in training mode, for a model built by [__init__] with [C >= 1]
    and [1 <= k <= min(2W, H)] and a batch of at least two queries within
    range, [forward] returns a [(batch, num_e)] matrix of scores, whatever
    the dropout masks; the call leaves the embeddings, the convolution,
    the linear layer and the affine parameters of the batch normalizations
    as they were (it updates the running statistics only). *)
Theorem forward_train_returns_scores (n_e n_r h w c k : nat) (pe pf pp : R)
    (P : Params) (m : DSConvE) (mk : Masks) (s r : list Z) :
  DSConvE_init n_e n_r h w c k pe pf pp P = Some m ->
  (1 <= c)%nat ->
  (0 < w)%nat -> (1 <= k)%nat -> (k <= 2 * w)%nat -> (k <= h)%nat ->
  (2 <= length s)%nat -> length r = length s ->
  Forall (in_range n_e) s -> Forall (in_range n_r) r ->
  exists scores m',
    forward_train m mk s r = Some (scores, m') /\
    shape scores = [length s; n_e] /\ wf scores /\
    embed_e m' = embed_e m /\ embed_r m' = embed_r m /\
    conv m' = conv m /\ fc m' = fc m /\
    bn_gamma (bn2d m') = bn_gamma (bn2d m) /\ bn_beta (bn2d m') = bn_beta (bn2d m) /\
    bn_gamma (bn1d m') = bn_gamma (bn1d m) /\ bn_beta (bn1d m') = bn_beta (bn1d m).
Proof.
  intros Hinit Hc Hw Hk Hkw Hkh Hb Hlen Hs Hr.
  destruct (conv_input_ok n_e n_r h w c k pe pf pp P m s r)
    as (ci & Hci & Hsci & Hwci & _); try assumption; [lia | lia |].
  destruct (DSConvE_init_inv _ _ _ _ _ _ _ _ _ _ _ Hinit)
    as (_ & _ & He & _ & Hconv & _ & Hfc & Hbn2 & Hbn1).
  rewrite DSConv2d_new_model in Hconv. inversion Hconv as [Hcv]. clear Hconv.
  set (n := length s) in *.
  set (x0 := Dropout_train (embed_dropout m) (keep_embed mk) ci).
  assert (Hs0 : shape x0 = [n; 1%nat; (2 * w)%nat; h]) by exact Hsci.
  destruct (DSConv2d_forward_model c k (depthwise_init P) (pointwise_init P)
              x0 n (2 * w) h Hc Hk Hkw Hkh Hs0) as (y & Hy & Hsy & Hwy & _).
  rewrite Hcv in Hy.
  set (ho := (2 * w - k + 1)%nat) in *. set (wo := (h - k + 1)%nat) in *.
  destruct (BatchNorm_train_ok (bn2d m) n c (ho * wo) (ReLU y))
    as (x3 & bn2 & Hx3 & Hs3 & Hw3 & _ & _ & Hg2 & Hb2);
    [subst ho wo; nia | exact Hc | exact Hbn2 | now apply ReLU_wf |].
  cbn [ReLU tmap shape] in Hs3. rewrite Hsy in Hs3.
  set (x4 := Dropout2d_train (feature_map_dropout m) (keep_fmap mk) x3).
  assert (Hs4 : shape x4 = [n; c; ho; wo]) by exact Hs3.
  assert (Hw4 : wf x4) by (now apply Dropout2d_train_wf).
  assert (Hin : in_features (fc m) = (c * ho * wo)%nat)
    by (rewrite Hfc; simpl; now apply flattened_size_nat).
  assert (Hout : out_features (fc m) = (h * w)%nat) by (now rewrite Hfc).
  destruct (Linear_call_ok (fc m) (mkTensor [n; (c * ho * wo)%nat] (data x4)) n)
    as (x6 & Hx6 & Hs6 & Hw6); [simpl; now rewrite Hin|].
  rewrite Hout in Hs6.
  destruct (BatchNorm_train_ok (bn1d m) n (h * w) 1 (ReLU x6))
    as (x8 & bn1 & Hx8 & Hs8 & Hw8 & _ & _ & Hg1 & Hb1);
    [lia | nia | exact Hbn1 | now apply ReLU_wf |].
  cbn [ReLU tmap shape] in Hs8. rewrite Hs6 in Hs8.
  set (out := Dropout_train (proj_layer_dropout m) (keep_proj mk) x8).
  assert (Hso : shape out = [n; (h * w)%nat]) by exact Hs8.
  destruct (transpose_ok (weight (embed_e m)) n_e (h * w))
    as (wt & Hwt & Hswt & _); [now rewrite He|].
  destruct (mm_ok out wt n (h * w) n_e Hso Hswt) as (sc & Hsc & Hssc & Hwsc).
  assert (Hce : conv_e_train m mk ci = Some (out, bn2, bn1)).
  { unfold conv_e_train. fold x0. rewrite Hy. cbn [bind].
    rewrite (BatchNorm2d_train_eq (bn2d m) (ReLU y) n c ho wo Hsy), Hx3.
    cbn [bind fst snd]. fold x4.
    rewrite (Flatten_forward_ok x4 n c ho wo) by (try assumption; lia). cbn [bind].
    rewrite Hx6. cbn [bind].
    rewrite (BatchNorm1d_train_eq (bn1d m) (ReLU x6) n (h * w) Hs6), Hx8.
    cbn [bind fst snd]. reflexivity. }
  exists sc, (with_batch_norms m bn2 bn1).
  split.
  { unfold forward_train. rewrite Hci. cbn [bind]. rewrite Hce. cbn [bind fst snd].
    rewrite Hwt. cbn [bind]. rewrite Hsc. reflexivity. }
  split; [exact Hssc|]. split; [exact Hwsc|].
  unfold with_batch_norms. cbn [embed_e embed_r conv fc bn2d bn1d].
  split; [reflexivity|]. split; [reflexivity|].
  split; [first [reflexivity | exact Hcv | symmetry; exact Hcv]|].
  split; [reflexivity|]. split; [exact Hg2|]. split; [exact Hb2|].
  split; [exact Hg1 | exact Hb1].
Qed.

Lemma forward_train_returns_scores_witness :
  exists m,
    DSConvE_init 3 2 2 1 4 1 0.2 0.2 0.3 small_params = Some m /\
    forall mk, exists scores m',
      forward_train m mk [2%Z; 0%Z] [1%Z; 1%Z] = Some (scores, m') /\
      shape scores = [2; 3]%nat /\ conv m' = conv m.
Proof.
  destruct (DSConvE_init_some 3 2 2 1 4 1 0.2 0.2 0.3 small_params) as [m Hm];
    [lra | lra | lra | cbv; discriminate |].
  exists m. split; [exact Hm|].
  intros mk.
  destruct (forward_train_returns_scores 3 2 2 1 4 1 0.2 0.2 0.3 small_params m mk
              [2%Z; 0%Z] [1%Z; 1%Z] Hm
              ltac:(lia) ltac:(lia) ltac:(lia) ltac:(lia) ltac:(lia)
              (Nat.le_refl 2) eq_refl)
    as (scores & m' & Hf & Hs & _ & _ & _ & Hc & _).
  - repeat (constructor; [unfold in_range; lia|]). constructor.
  - repeat (constructor; [unfold in_range; lia|]). constructor.
  - exists scores, m'. split; [exact Hf|]. split; [exact Hs | exact Hc].
Defined.

End TrainingMode.
